(** * Outbound mail delivery of the YAMN remailer with Tor routing

    A shallow embedding of [mail.go] (address parsing, MX resolution,
    transport policy, the SMTP session, the delivery sinks and the
    outbound pool) and of [dialThroughTor] from the main file.

    Go strings are byte sequences: they are embedded as [string]
    (a list of [ascii] bytes).  Go [int] values are embedded as [Z];
    the one multiplication of the code that can overflow
    ([time.Duration(n) * time.Second]) has its 64-bit wrap-around
    written out.  [mail.Header] is a Go map from header names to the
    list of their values: it is embedded as a [gmap string (list string)].
    Calls that reach outside the process (files, DNS, sockets, SMTP
    commands, child processes, the logger) are recorded in a trace of
    events; what the outside answers is read from a [World].  The
    reader of [net/mail] is modelled on byte payloads, to read back what
    [assemble] writes. *)

From Stdlib Require Import ZArith Ascii String List Bool Lia.
From stdpp Require Import base option list gmap strings pretty.

Set Default Proof Using "Type".

(** ** Go's [strings] package, as far as the code uses it *)

Module strings.

(** [strings.HasPrefix(s, prefix)] *)
Fixpoint HasPrefix (s prefix : string) {struct prefix} : bool :=
  match prefix with
  | EmptyString => true
  | String p prefix' =>
      match s with
      | EmptyString => false
      | String c s' => Ascii.eqb c p && HasPrefix s' prefix'
      end
  end.

(** [strings.HasSuffix(s, suffix)]:
    [len(s) >= len(suffix) && s[len(s)-len(suffix):] == suffix] *)
Definition HasSuffix (s suffix : string) : bool :=
  (String.length suffix <=? String.length s)%nat &&
  String.eqb
    (substring (String.length s - String.length suffix)
               (String.length suffix) s)
    suffix.

(** [strings.Contains(s, substr)]: [substr] starts at some index of [s] *)
Fixpoint Contains (s substr : string) : bool :=
  HasPrefix s substr ||
  match s with
  | EmptyString => false
  | String _ s' => Contains s' substr
  end.

(** [strings.Count(s, sep)] for a one-byte [sep] *)
Fixpoint CountByte (s : string) (c : ascii) : nat :=
  match s with
  | EmptyString => 0
  | String a s' => (if Ascii.eqb a c then 1 else 0) + CountByte s' c
  end.

Definition cons_byte (c : ascii) (parts : list string) : list string :=
  match parts with
  | [] => [String c EmptyString]
  | p :: ps => String c p :: ps
  end.

(** The scan of [strings.Split] for a non-empty separator: cut at every
    occurrence of [sep], left to right, occurrences not overlapping.
    [skip] counts the bytes of a matched separator still to be dropped. *)
Fixpoint split_from (s sep : string) (skip : nat) : list string :=
  match s with
  | EmptyString => [EmptyString]
  | String c s' =>
      match skip with
      | S k => split_from s' sep k
      | O =>
          if HasPrefix (String c s') sep
          then EmptyString :: split_from s' sep (String.length sep - 1)
          else cons_byte c (split_from s' sep 0)
      end
  end.

Fixpoint explode (s : string) : list string :=
  match s with
  | EmptyString => []
  | String c s' => String c EmptyString :: explode s'
  end.

(** [strings.Split(s, sep)].  With an empty separator Go splits after
    each UTF-8 sequence; [explode] does so for one-byte characters. *)
Definition Split (s sep : string) : list string :=
  match sep with
  | EmptyString => explode s
  | _ => split_from s sep 0
  end.

(** [strings.Join(elems, sep)] *)
Fixpoint Join (elems : list string) (sep : string) : string :=
  match elems with
  | [] => EmptyString
  | [e] => e
  | e :: rest => e +:+ sep +:+ Join rest sep
  end.

(** The white space of [strings.Fields] among the one-byte characters:
    tab, line feed, vertical tab, form feed, carriage return, space. *)
Definition isSpace (c : ascii) : bool :=
  let n := nat_of_ascii c in
  ((9 <=? n)%nat && (n <=? 13)%nat) || (n =? 32)%nat.

(** [strings.Fields(s)]: the maximal runs of bytes that are not white
    space. *)
Fixpoint Fields (s : string) : list string :=
  match s with
  | EmptyString => []
  | String c s' =>
      if isSpace c then Fields s'
      else
        match s' with
        | EmptyString => [String c EmptyString]
        | String c' _ =>
            if isSpace c' then String c EmptyString :: Fields s'
            else cons_byte c (Fields s')
        end
  end.

End strings.

(** [error] values are represented by their message. *)
Definition error := string.

(** ** Address parsing *)

Record emailAddress := { name : string; domain : string }.

(** The zero value of the named result [e]. *)
Definition emailAddress_zero : emailAddress :=
  {| name := ""; domain := "" |}.

(** [splitEmailAddress] splits an email address into its component parts.
    The two results of the Go function are returned as a pair; a [nil]
    error is [None]. *)
Definition splitEmailAddress (addy : string) : emailAddress * option error :=
  if negb (strings.Contains addy "@") then
    (emailAddress_zero, Some (addy +:+ ": Email address contains no '@'"))
  else
    let components := strings.Split addy "@" in
    match components with
    | [c0; c1] => ({| name := c0; domain := c1 |}, None)
    | _ => (emailAddress_zero, Some (addy +:+ ": Malformed email address"))
    end.

(** ** Results, panics and traces *)

Inductive Result (A : Type) : Type :=
  | Ok (a : A)
  | Err (e : error).
Arguments Ok {A} a.
Arguments Err {A} e.

(** Levels of the logger ([log.Tracef], [log.Infof], [log.Warnf],
    [log.Errorf]). *)
Inductive Level := LvTrace | LvInfo | LvWarn | LvError.

(** An open file is represented by its name, a network connection by the
    address it leads to. *)
Definition File := string.
Definition Conn := string.
Definition Time := Z.

(** What the process does to the outside, in the order it does it.  A
    logger call carries its format and its arguments. *)
Inductive Event :=
  | Log (lvl : Level) (format : string) (args : list string)
  | OsOpen (filename : string)
  | ReadMessage (f : File)
  | FileClose (f : File)
  | OsCreate (filename : string)
  | FileWriteString (f : File) (s : string)
  | CmdStdinPipe (args : list string)
  | CmdStart (args : list string)
  | StdinWrite (args : list string) (payload : string)
  | StdinClose (args : list string)
  | CmdWait (args : list string)
  | LookupMX (dom : string)
  | DialTimeout (network address : string) (timeout : Z)
  | SocksDial (proxy : string) (timeout : Z) (network address : string)
  | SmtpNewClient (c : Conn) (host : string)
  | SmtpExtension (ext : string)
  | SmtpStartTLS (insecureSkipVerify : bool)
  | SmtpAuth (username password host : string)
  | SmtpMail (from : string)
  | SmtpRcpt (to : string)
  | SmtpData
  | DataWrite (payload : string)
  | DataClose
  | SmtpQuit
  | SmtpSendMail (addr username password host from : string)
                 (to : list string) (msg : string).

(** How a Go call ends: it returns, or it panics. *)
Inductive Outcome (A : Type) : Type :=
  | Done (a : A)
  | Panic (msg : string).
Arguments Done {A} a.
Arguments Panic {A} msg.

(** A computation: the events it produced and how it ended. *)
Record M (A : Type) : Type := Run { trace : list Event; outcome : Outcome A }.
Arguments Run {A} trace outcome.
Arguments trace {A} m.
Arguments outcome {A} m.

Definition M_bind {A B : Type} (f : A → M B) (m : M A) : M B :=
  match outcome m with
  | Done a => Run (trace m ++ trace (f a)) (outcome (f a))
  | Panic msg => Run (trace m) (Panic msg)
  end.

#[global] Instance M_mret : MRet M := fun A a => Run [] (Done a).
#[global] Instance M_mbind : MBind M := fun A B f m => M_bind f m.

(** One call to the outside that answers [r]. *)
Definition call {A : Type} (e : Event) (r : A) : M A := Run [e] (Done r).

Definition log (lvl : Level) (format : string) (args : list string) : M unit :=
  call (Log lvl format args) tt.

Definition panic {A : Type} (msg : string) : M A := Run [] (Panic msg).

(** [defer]: the deferred call runs when the function is left, by a
    return or by a panic. *)
Definition defer {A : Type} (e : Event) (m : M A) : M A :=
  Run (trace m ++ [e]) (outcome m).

(** The run-time error of [p.field] on a nil pointer [p]. *)
Definition nil_dereference : string :=
  "runtime error: invalid memory address or nil pointer dereference".

Definition deref {A : Type} (p : option A) : M A :=
  match p with
  | Some a => mret a
  | None => panic nil_dereference
  end.

(** The line feed, written ["\n"] in Go. *)
Definition LF : string := String "010"%char EmptyString.

(** ** The configuration

    The [config] package is not part of these files; the records list the
    fields that the code reads.  [cfg.Tor] is a pointer, tested against
    [nil] by the code: it is an [option]. *)

Module config.

Record MailConfig := {
  Outfile : bool;
  Pipe : string;
  Sendmail : bool;
  SMTPRelay : string;
  SMTPPort : Z;
  MXRelay : bool;
  OnionRelay : bool;
  UseTLS : bool;
  DisableTLSOnion : bool;
  ForceTorSMTP : bool;
  Username : string;
  Password : string;
  Sender : string;
  OutboundName : string;
  OutboundAddy : string;
  CustomFrom : bool
}.

Record PoolConfig := { MaxAge : Z }.

Record RemailerConfig := { Address : string }.

Record TorConfig := {
  Enabled : bool;
  SocksProxy : string;
  Timeout : Z;
  CircuitReset : Z;
  Required : bool
}.

Record Config := {
  Mail : MailConfig;
  Pool : PoolConfig;
  Remailer : RemailerConfig;
  Tor : option TorConfig
}.

End config.

(** ** Go's [net/textproto] and [net/mail], as far as the code uses them *)

Module mail.

Definition is_upper (c : ascii) : bool :=
  (65 <=? nat_of_ascii c)%nat && (nat_of_ascii c <=? 90)%nat.
Definition is_lower (c : ascii) : bool :=
  (97 <=? nat_of_ascii c)%nat && (nat_of_ascii c <=? 122)%nat.
Definition is_digit (c : ascii) : bool :=
  (48 <=? nat_of_ascii c)%nat && (nat_of_ascii c <=? 57)%nat.
Definition to_upper (c : ascii) : ascii := ascii_of_nat (nat_of_ascii c - 32).
Definition to_lower (c : ascii) : ascii := ascii_of_nat (nat_of_ascii c + 32).

Fixpoint mem_byte (c : ascii) (s : string) : bool :=
  match s with
  | EmptyString => false
  | String a s' => Ascii.eqb a c || mem_byte c s'
  end.

Fixpoint all_bytes (p : ascii → bool) (s : string) : bool :=
  match s with
  | EmptyString => true
  | String a s' => p a && all_bytes p s'
  end.

(** The bytes of a header field name: the token characters. *)
Definition validHeaderFieldByte (c : ascii) : bool :=
  is_upper c || is_lower c || is_digit c || mem_byte c "!#$%&'*+-.^_`|~".

(** First letter and every letter after a dash in upper case, the other
    letters in lower case. *)
Fixpoint canonicalize (upper : bool) (s : string) : string :=
  match s with
  | EmptyString => EmptyString
  | String c s' =>
      let c' :=
        if upper && is_lower c then to_upper c
        else if negb upper && is_upper c then to_lower c
        else c in
      String c' (canonicalize (Ascii.eqb c' "-") s')
  end.

(** [textproto.CanonicalMIMEHeaderKey]: a key with a byte that is not
    allowed in a field name is returned unchanged. *)
Definition CanonicalMIMEHeaderKey (s : string) : string :=
  if all_bytes validHeaderFieldByte s then canonicalize true s else s.

(** [mail.Header] is [map[string][]string]. *)
Abbreviation HeaderT := (gmap string (list string)).

(** [mail.Message]; the body reader is represented by the bytes that
    remain to be read from it. *)
Record Message := { Header : HeaderT; Body : string }.

(** [Header.Get]: the first value of the canonical form of [key], or
    [""] when there is none. *)
Definition Get (h : HeaderT) (key : string) : string :=
  match h !! CanonicalMIMEHeaderKey key with
  | Some (v :: _) => v
  | _ => ""
  end.

(** [mail.Address] *)
Record AddressT := { Name : string; Address : string }.

Definition ErrHeaderNotPresent : error := "mail: header not in message".

(** [Header.AddressList], over the address-list parser
    [mail.ParseAddressList]. *)
Definition AddressList
    (ParseAddressList : string → Result (list AddressT))
    (h : HeaderT) (key : string) : Result (list AddressT) :=
  let hdr := Get h key in
  if String.eqb hdr "" then Err ErrHeaderNotPresent
  else ParseAddressList hdr.

End mail.

(** [net.MX] *)
Record MX := { Host : string; Pref : Z }.

(** The writer returned by [Client.Data]. *)
Record DataWriter := {
  data_Write : string → option error;
  data_Close : option error
}.

(** An [smtp.Client], seen through the methods that the code calls: how
    the server at the other end answers each of them. *)
Record Client := {
  client_Extension : string → bool;
  client_StartTLS : option error;
  client_Auth : string → string → string → option error;
  client_Mail : string → option error;
  client_Rcpt : string → option error;
  client_Data : Result DataWriter
}.

(** A [proxy.Dialer]; [asContextDialer] is the result of the type
    assertion [dialer.(proxy.ContextDialer)], whose method takes the
    time left to the context, the network and the address. *)
Record Dialer := {
  asContextDialer : option (Z → string → string → Result Conn)
}.

(** ** The world outside the two files

    The standard library calls that do input or output, the pure library
    functions that are not modelled in detail ([time.Parse],
    [mail.ParseAddressList], [url.Parse]), the order in which the run time
    ranges over a map, and the helpers of the repository that are defined
    in other files ([daysAgo], [messageID], [randPoolFilename]).  The
    world is deterministic: the same call gets the same answer. *)
Record World := {
  os_Open : string → Result File;
  os_Create : string → Result File;
  file_WriteString : File → string → option error;
  mail_ReadMessage : File → Result mail.Message;
  mail_ParseAddressList : string → Result (list mail.AddressT);
  time_Parse : string → string → Result Time;
  time_Now_Format : string → string;
  range_keys : mail.HeaderT → list string;
  daysAgo : Time → Z;
  messageID : string;
  randPoolFilename : string → string;
  cmd_StdinPipe : list string → option error;
  cmd_Start : list string → option error;
  cmd_Wait : list string → option error;
  net_LookupMX : string → Result (list MX);
  net_DialTimeout : string → string → Z → Result Conn;
  url_Parse : string → Result string;
  proxy_FromURL : string → Result Dialer;
  smtp_NewClient : Conn → string → Result Client;
  smtp_SendMail :
    string → string → string → string → string → list string → string →
    option error
}.

(** Constants of the main file. *)
Definition rfc5322date : string := "Mon, 2 Jan 2006 15:04:05 -0700".
Definition shortdate : string := "2 Jan 2006".

(** [time.Second], in nanoseconds, and the wrap-around of [int64]. *)
Definition Second : Z := 1000000000.
Definition wrap64 (z : Z) : Z := ((z + 2 ^ 63) mod 2 ^ 64 - 2 ^ 63)%Z.

(** ** The program *)

Section Program.

(** [cfg], the configuration loaded at start-up, and the world. *)
Variable cfg : config.Config.
Variable w : World.

(** The loop of [assemble] over the keys of the header, in the order
    [keys] in which the run time yields them; [buf] is the buffer. *)
Fixpoint assemble_range (msg : mail.Message) (keys : list string)
    (buf : string) : M string :=
  match keys with
  | [] => mret buf
  | h :: keys' =>
      if strings.HasPrefix h "Yamn-" then
        log LvError "Ignoring internal mail header in assemble phase: %s" [h];;
        assemble_range msg keys' buf
      else
        assemble_range msg keys'
          (buf +:+ (h +:+ ": " +:+ mail.Get (mail.Header msg) h +:+ LF))
  end.

Definition assemble (msg : mail.Message) : M string :=
  buf ← assemble_range msg (range_keys w (mail.Header msg)) "";
  mret (buf +:+ LF +:+ mail.Body msg).

(** [headToAddy] parses a header containing email addresses.  When the
    header does not parse, the address list is nil. *)
Definition headToAddy (h : mail.HeaderT) (header : string) : M (list string) :=
  match h !! header with
  | None => mret []
  | Some _ =>
      match mail.AddressList (mail_ParseAddressList w) h header with
      | Err _ =>
          log LvWarn "Failed to parse header: %s" [header];;
          mret []
      | Ok addyList => mret (map mail.Address addyList)
      end
  end.

(** [mxLookup], the loop over the MX records: the host of the first
    record that is not skipped, [""] when there is none. *)
Fixpoint mxLookup_range (mxRecords : list MX) : string :=
  match mxRecords with
  | [] => ""
  | mx :: rest =>
      if negb (config.OnionRelay (config.Mail cfg))
         && strings.HasSuffix (Host mx) ".onion."
      then mxLookup_range rest
      else Host mx
  end.

(** [mxLookup] returns the responsible MX for a given email address. *)
Definition mxLookup (email : string) : M (string * option error) :=
  let '(emailParts, err) := splitEmailAddress email in
  match err with
  | Some e => mret ("", Some e)
  | None =>
      if strings.HasSuffix (domain emailParts) ".onion" then
        log LvTrace "Detected .onion address: %s - Using direct routing"
          [domain emailParts];;
        mret (domain emailParts, None)
      else
        r ← call (LookupMX (domain emailParts))
                 (net_LookupMX w (domain emailParts));
        match r with
        | Err _ =>
            log LvTrace "DNS MX lookup failed for %s. Using hostname."
              [domain emailParts];;
            mret (domain emailParts, None)
        | Ok mxRecords =>
            let relay := mxLookup_range mxRecords in
            relay ←
              (if String.eqb relay "" then
                 log LvInfo "No valid MX records found for %s. Using hostname."
                   [domain emailParts];;
                 mret (domain emailParts)
               else mret relay);
            log LvTrace "DNS lookup: Hostname=%s, MX=%s"
              [domain emailParts; relay];;
            mret (relay, None)
        end
  end.

Definition outbound : string :=
  config.OutboundName (config.Mail cfg) +:+ " <"
  +:+ config.OutboundAddy (config.Mail cfg) +:+ ">".

(** [parseFrom] takes a mail address of the format [Name <name@foo>]
    and validates it. *)
Definition parseFrom (h : mail.HeaderT) : list string :=
  match mail.AddressList (mail_ParseAddressList w) h "From" with
  | Err _ => [outbound]
  | Ok [] => [outbound]
  | Ok (from0 :: _) =>
      if config.CustomFrom (config.Mail cfg) then
        [mail.Name from0 +:+ " <" +:+ mail.Address from0 +:+ ">"]
      else if (String.length (mail.Name from0) =? 0)%nat then [outbound]
      else
        [mail.Name from0 +:+ " <"
         +:+ config.OutboundAddy (config.Mail cfg) +:+ ">"]
  end.

(** [execSend] pipes mail to an external command.  [Args[0]] panics
    when the command has no field. *)
Definition execSend (payload execCmd : string) : M (option error) :=
  let args := strings.Fields execCmd in
  match args with
  | [] => panic "runtime error: index out of range [0] with length 0"
  | _ :: _ =>
      err ← call (CmdStdinPipe args) (cmd_StdinPipe w args);
      match err with
      | Some e => log LvError "%s: %s" [execCmd; e];; mret (Some e)
      | None =>
          defer (StdinClose args)
            (err ← call (CmdStart args) (cmd_Start w args);
             match err with
             | Some e => log LvError "%s: %s" [execCmd; e];; mret (Some e)
             | None =>
                 call (StdinWrite args payload) tt;;
                 call (StdinClose args) tt;;
                 err ← call (CmdWait args) (cmd_Wait w args);
                 match err with
                 | Some e => log LvError "%s: %s" [execCmd; e];; mret (Some e)
                 | None => mret None
                 end
             end)
      end
  end.

(** [shouldUseTor] decides whether Tor is used for an address. *)
Definition shouldUseTor (address : string) : bool :=
  match config.Tor cfg with
  | None => false
  | Some tor =>
      if negb (config.Enabled tor) then false
      else if strings.Contains address ".onion" then true
      else if config.ForceTorSMTP (config.Mail cfg) then true
      else false
  end.

(** [dialThroughTor] opens a connection through the SOCKS proxy of Tor. *)
Definition dialThroughTor (address : string) : M (Result Conn) :=
  tor ← deref (config.Tor cfg);
  let torProxy :=
    if String.eqb (config.SocksProxy tor) "" then "127.0.0.1:9050"
    else config.SocksProxy tor in
  match url_Parse w ("socks5://" +:+ torProxy) with
  | Err e => mret (Err ("invalid proxy URL: " +:+ e))
  | Ok proxyURL =>
      match proxy_FromURL w proxyURL with
      | Err e => mret (Err ("failed to create SOCKS5 dialer: " +:+ e))
      | Ok dialer =>
          let timeout := wrap64 (config.Timeout tor * Second) in
          let timeout := if (timeout =? 0)%Z then (30 * Second)%Z else timeout in
          match asContextDialer dialer with
          | None => panic "interface conversion: not a proxy.ContextDialer"
          | Some DialContext =>
              r ← call (SocksDial torProxy timeout "tcp" address)
                       (DialContext timeout "tcp" address);
              match r with
              | Err e => mret (Err ("failed to dial through Tor: " +:+ e))
              | Ok conn =>
                  log LvTrace "Connected to %s via Tor" [address];;
                  mret (Ok conn)
              end
          end
      end
  end.

(** The loop of [smtpRelay] over the recipients: a rejected recipient
    ends the delivery. *)
Fixpoint smtpRelay_rcpt (client : Client) (sendTo : list string)
    : M (option error) :=
  match sendTo with
  | [] => mret None
  | addr :: rest =>
      err ← call (SmtpRcpt addr) (client_Rcpt client addr);
      match err with
      | Some e =>
          log LvWarn "SMTP RCPT error for %s: %v" [addr; e];;
          mret (Some e)
      | None => smtpRelay_rcpt client rest
      end
  end.

(** [smtpRelay], from the STARTTLS test to the end: the session with
    the server behind [client], left through the deferred
    [client.Quit()] of [smtpRelay]. *)
Definition smtpRelay_session (client : Client) (relay serverAddr : string)
    (useTor : bool) (payload : string) (sendTo : list string)
    : M (option error) :=
  ok ← call (SmtpExtension "STARTTLS") (client_Extension client "STARTTLS");
  let shouldUseTLS := config.UseTLS (config.Mail cfg) in
  let shouldUseTLS :=
    if strings.Contains relay ".onion"
       && config.DisableTLSOnion (config.Mail cfg)
    then false else shouldUseTLS in
  err ←
    (if ok && shouldUseTLS
     then call (SmtpStartTLS true) (client_StartTLS client)
     else mret None);
  match err with
  | Some e =>
      log LvWarn "STARTTLS error for %s: %v" [serverAddr; e];;
      mret (Some e)
  | None =>
      ok ← call (SmtpExtension "AUTH") (client_Extension client "AUTH");
      err ←
        (if ok
            && negb (String.eqb (config.Username (config.Mail cfg)) "")
            && negb (String.eqb (config.Password (config.Mail cfg)) "")
         then
           call (SmtpAuth (config.Username (config.Mail cfg))
                          (config.Password (config.Mail cfg))
                          (config.SMTPRelay (config.Mail cfg)))
                (client_Auth client
                   (config.Username (config.Mail cfg))
                   (config.Password (config.Mail cfg))
                   (config.SMTPRelay (config.Mail cfg)))
         else mret None);
      match err with
      | Some e =>
          log LvWarn "SMTP auth error for %s: %v" [serverAddr; e];;
          mret (Some e)
      | None =>
          let sender := config.Sender (config.Mail cfg) in
          let sender :=
            if String.eqb sender "" then config.Address (config.Remailer cfg)
            else sender in
          err ← call (SmtpMail sender) (client_Mail client sender);
          match err with
          | Some e =>
              log LvWarn "SMTP MAIL error for %s: %v" [serverAddr; e];;
              mret (Some e)
          | None =>
              err ← smtpRelay_rcpt client sendTo;
              match err with
              | Some e => mret (Some e)
              | None =>
                  r ← call SmtpData (client_Data client);
                  match r with
                  | Err e =>
                      log LvWarn "SMTP DATA error: %v" [e];;
                      mret (Some e)
                  | Ok wr =>
                      err ← call (DataWrite payload) (data_Write wr payload);
                      match err with
                      | Some e =>
                          log LvWarn "SMTP write error: %v" [e];;
                          mret (Some e)
                      | None =>
                          err ← call DataClose (data_Close wr);
                          match err with
                          | Some e =>
                              log LvWarn "SMTP close error: %v" [e];;
                              mret (Some e)
                          | None =>
                              (if useTor then
                                 log LvTrace "Email sent via Tor to %s" [serverAddr]
                               else
                                 log LvTrace "Email sent directly to %s" [serverAddr]);;
                              mret None
                          end
                      end
                  end
              end
          end
      end
  end.

(** [smtpRelay], the choice of the relay and the port: those of the
    configuration, or the MX of the only recipient on port 25. *)
Definition smtpRelay_endpoint (sendTo : list string) (useTor : bool)
    : M (string * Z) :=
  let relay := config.SMTPRelay (config.Mail cfg) in
  let port := config.SMTPPort (config.Mail cfg) in
  match sendTo with
  | [rcpt] =>
      if config.MXRelay (config.Mail cfg)
         && negb (strings.Contains rcpt ".onion")
         && negb useTor
      then
        log LvTrace "DNS lookup of MX record for %s" [rcpt];;
        '(mx, err) ← mxLookup rcpt;
        match err with
        | None =>
            log LvTrace "Doing direct relay for %s to %s:25" [rcpt; mx];;
            mret (mx, 25%Z)
        | Some _ => mret (relay, port)
        end
      else mret (relay, port)
  | _ => mret (relay, port)
  end.

(** [smtpRelay], the creation of the connection. *)
Definition smtpRelay_dial (useTor : bool) (serverAddr : string)
    (timeout : Z) : M (Result Conn) :=
  if useTor then
    r ← dialThroughTor serverAddr;
    match r with
    | Err e =>
        log LvWarn "Tor SMTP dial error for %s: %v" [serverAddr; e];;
        mret (Err e)
    | Ok conn => mret (Ok conn)
    end
  else
    r ← call (DialTimeout "tcp" serverAddr timeout)
             (net_DialTimeout w "tcp" serverAddr timeout);
    match r with
    | Err e =>
        log LvWarn "Direct SMTP dial error for %s: %v" [serverAddr; e];;
        mret (Err e)
    | Ok conn => mret (Ok conn)
    end.

(** [smtpRelay] sends email via SMTP. *)
Definition smtpRelay (payload : string) (sendTo : list string)
    : M (option error) :=
  let useTor := existsb shouldUseTor sendTo in
  '(relay, port) ← smtpRelay_endpoint sendTo useTor;
  let serverAddr := relay +:+ ":" +:+ pretty port in
  tor ← deref (config.Tor cfg);
  let timeout := wrap64 (config.Timeout tor * Second) in
  let timeout := if (timeout =? 0)%Z then (30 * Second)%Z else timeout in
  r ← smtpRelay_dial useTor serverAddr timeout;
  match r with
  | Err e => mret (Some e)
  | Ok conn =>
      r ← call (SmtpNewClient conn relay) (smtp_NewClient w conn relay);
      match r with
      | Err e =>
          log LvWarn "SMTP connection error for %s: %v" [serverAddr; e];;
          mret (Some e)
      | Ok client =>
          defer SmtpQuit
            (smtpRelay_session client relay serverAddr useTor payload sendTo)
      end
  end.

(** [sendmail] invokes standard sendmail: [smtp.SendMail] with plain
    authentication. *)
Definition sendmail (payload : string) (sendTo : list string)
    : M (option error) :=
  let relay :=
    config.SMTPRelay (config.Mail cfg) +:+ ":"
    +:+ pretty (config.SMTPPort (config.Mail cfg)) in
  err ← call (SmtpSendMail relay
                (config.Username (config.Mail cfg))
                (config.Password (config.Mail cfg))
                (config.SMTPRelay (config.Mail cfg))
                (config.Address (config.Remailer cfg)) sendTo payload)
             (smtp_SendMail w relay
                (config.Username (config.Mail cfg))
                (config.Password (config.Mail cfg))
                (config.SMTPRelay (config.Mail cfg))
                (config.Address (config.Remailer cfg)) sendTo payload);
  match err with
  | Some e => log LvWarn "" [e];; mret (Some e)
  | None => mret None
  end.

(** [sendmailTor] routes sendmail through Tor when enabled. *)
Definition sendmailTor (payload : string) (sendTo : list string)
    : M (option error) :=
  match config.Tor cfg with
  | None => sendmail payload sendTo
  | Some tor =>
      if negb (config.Enabled tor) then sendmail payload sendTo
      else
        log LvInfo ""
          ["Tor enabled - routing through SMTP relay instead of direct sendmail"];;
        smtpRelay payload sendTo
  end.

(** [mailBytes] sends a byte payload to given addresses. *)
Definition mailBytes (payload : string) (sendTo : list string)
    : M (option error) :=
  log LvTrace "Message recipients are: %s" [strings.Join sendTo ","];;
  if config.Outfile (config.Mail cfg) then
    let filename := randPoolFilename w "outfile-" in
    log LvTrace "Writing output to %s" [filename];;
    r ← call (OsCreate filename) (os_Create w filename);
    match r with
    | Err e =>
        log LvWarn ("Pool file creation failed: %s" +:+ LF) [e];;
        mret (Some e)
    | Ok f =>
        defer (FileClose f)
          (err ← call (FileWriteString f payload) (file_WriteString w f payload);
           match err with
           | Some e =>
               log LvWarn ("Outfile write failed: %s" +:+ LF) [e];;
               mret (Some e)
           | None => mret None
           end)
    end
  else if negb (String.eqb (config.Pipe (config.Mail cfg)) "") then
    execSend payload (config.Pipe (config.Mail cfg))
  else if config.Sendmail (config.Mail cfg) then
    sendmailTor payload sendTo
  else
    smtpRelay payload sendTo.

(** [mailPoolFile] reads a file from the outbound pool and mails it.
    The results are the delete flag and the error. *)
Definition mailPoolFile (filename : string) : M (bool * option error) :=
  r ← call (OsOpen filename) (os_Open w filename);
  match r with
  | Err e =>
      log LvError "Failed to read file for mailing: %s" [e];;
      mret (false, Some e)
  | Ok f =>
      defer (FileClose f)
        (r ← call (ReadMessage f) (mail_ReadMessage w f);
         match r with
         | Err e =>
             log LvError "Failed to process mail file: %s" [e];;
             mret (true, Some e)
         | Ok msg =>
             (* what follows the test for a pooled date, on the header
                that the test leaves *)
             let send (h : mail.HeaderT) : M (bool * option error) :=
               let h := <["Date" := [time_Now_Format w rfc5322date]]> h in
               let h := <["Message-Id" := [messageID w]]> h in
               let h := <["From" := parseFrom h]> h in
               sendTo ← headToAddy h "To";
               cc ← headToAddy h "Cc";
               let sendTo := sendTo ++ cc in
               if (length sendTo =? 0)%nat then
                 mret (true, Some (filename +:+ ": No email recipients found"))
               else
                 payload ← assemble {| mail.Header := h; mail.Body := mail.Body msg |};
                 err ← mailBytes payload sendTo;
                 mret (false, err) in
             let pooledHeader := mail.Get (mail.Header msg) "Yamn-Pooled-Date" in
             if String.eqb pooledHeader "" then
               log LvWarn "" ["No Yamn-Pooled-Date header in message"];;
               send (mail.Header msg)
             else
               match time_Parse w shortdate pooledHeader with
               | Err e =>
                   log LvError "%s: Failed to parse Yamn-Pooled-Date: %s"
                     [filename; e];;
                   mret (false, Some e)
               | Ok pooledDate =>
                   let age := daysAgo w pooledDate in
                   if (age >? config.MaxAge (config.Pool cfg))%Z then
                     log LvInfo
                       "%s: Refusing to mail pool file. Exceeds max age of %d days"
                       [filename; pretty (config.MaxAge (config.Pool cfg))];;
                     mret (true, None)
                   else
                     (if (age >? 0)%Z then
                        log LvTrace "Mailing pooled file that's %d days old."
                          [pretty age]
                      else mret tt);;
                     send (delete "Yamn-Pooled-Date" (mail.Header msg))
               end
         end)
  end.

End Program.

(** ** Reading a message back

    [mail.ReadMessage] on a byte payload, after [net/mail] and
    [net/textproto] of Go 1.20 and later.  A line ends with a line feed,
    and a carriage return before the line feed is dropped; the last line
    may end with the input.  A line that starts with a blank continues
    the line before it.  The header ends at the first continued line that
    is empty; the rest of the input is the body.  Every other continued
    line is cut at its first colon into a name, which is canonicalized,
    and a value, which loses its leading blanks and is appended to the
    values of the name. *)

Module reader.

Definition CR : ascii := "013"%char.

Definition is_blank (c : ascii) : bool :=
  Ascii.eqb c " " || Ascii.eqb c "009".

Definition starts_blank (s : string) : bool :=
  match s with
  | EmptyString => false
  | String c _ => is_blank c
  end.

(** [strings.TrimLeft(s, " \t")], also what [skipSpace] leaves. *)
Fixpoint TrimLeft (s : string) : string :=
  match s with
  | EmptyString => EmptyString
  | String c s' => if is_blank c then TrimLeft s' else s
  end.

Fixpoint TrimRight (s : string) : string :=
  match s with
  | EmptyString => EmptyString
  | String c s' =>
      match TrimRight s' with
      | EmptyString => if is_blank c then EmptyString else String c EmptyString
      | t => String c t
      end
  end.

(** [textproto]'s [trim]: leading and trailing spaces and tabs go. *)
Definition trim (s : string) : string := TrimRight (TrimLeft s).

(** The bytes up to the first line feed, and what follows it. *)
Fixpoint cut_line (s : string) : option (string * string) :=
  match s with
  | EmptyString => None
  | String c s' =>
      if Ascii.eqb c "010" then Some (EmptyString, s')
      else
        match cut_line s' with
        | Some (l, rest) => Some (String c l, rest)
        | None => None
        end
  end.

Fixpoint drop_cr (s : string) : string :=
  match s with
  | EmptyString => EmptyString
  | String c EmptyString => if Ascii.eqb c CR then EmptyString else s
  | String c s' => String c (drop_cr s')
  end.

(** [readLineSlice]: the next line without its end and the rest of the
    input; [None] at the end of the input. *)
Definition readLine (s : string) : option (string * string) :=
  match s with
  | EmptyString => None
  | _ =>
      match cut_line s with
      | Some (l, rest) => Some (drop_cr l, rest)
      | None => Some (s, EmptyString)
      end
  end.

(** The loop of [readContinuedLineSlice]: while the input goes on with a
    blank, the blanks are skipped and the rest of the line is added to
    [buf], trimmed and after one space.  Every turn takes at least one
    byte, so [fuel] above the length of [s] is enough. *)
Fixpoint continuation (fuel : nat) (buf s : string) : string * string :=
  match fuel with
  | O => (buf, s)
  | S fuel' =>
      if starts_blank s then
        match readLine (TrimLeft s) with
        | None => (buf, EmptyString)
        | Some (l, rest) => continuation fuel' (buf +:+ " " +:+ trim l) rest
        end
      else (buf, s)
  end.

(** [ReadContinuedLine]: [None] at the end of the input. *)
Definition ReadContinuedLine (s : string) : option (string * string) :=
  match readLine s with
  | None => None
  | Some (l, rest) =>
      if String.eqb l "" then Some (EmptyString, rest)
      else Some (continuation (S (String.length rest)) (trim l) rest)
  end.

(** [strings.Cut(s, ":")] *)
Fixpoint cut_colon (s : string) : option (string * string) :=
  match s with
  | EmptyString => None
  | String c s' =>
      if Ascii.eqb c ":" then Some (EmptyString, s')
      else
        match cut_colon s' with
        | Some (k, v) => Some (String c k, v)
        | None => None
        end
  end.

(** How [readHeader] ends: at the empty line, at the end of the input, or
    on a line without a colon. *)
Inductive HeaderEnd := EmptyLine | EndOfInput | Malformed.

(** The loop of [readHeader]; [None] when [fuel] runs out, which it does
    not above the length of [s]. *)
Fixpoint readHeader_loop (fuel : nat) (m : mail.HeaderT) (s : string)
    : option (mail.HeaderT * HeaderEnd * string) :=
  match fuel with
  | O => None
  | S fuel' =>
      match ReadContinuedLine s with
      | None => Some (m, EndOfInput, EmptyString)
      | Some (kv, rest) =>
          if String.eqb kv "" then Some (m, EmptyLine, rest)
          else
            match cut_colon kv with
            | None => Some (m, Malformed, rest)
            | Some (k, v) =>
                let key := mail.CanonicalMIMEHeaderKey k in
                if String.eqb key "" then readHeader_loop fuel' m rest
                else
                  readHeader_loop fuel'
                    (<[key := default [] (m !! key) ++ [TrimLeft v]]> m) rest
            end
      end
  end.

(** [mail.ReadMessage]: the first line must not start with a blank; a
    header that ends with the input is accepted when it is not empty. *)
Definition ReadMessage (payload : string) : option mail.Message :=
  if starts_blank payload then None
  else
    match readHeader_loop (S (String.length payload)) ∅ payload with
    | Some (h, EmptyLine, body) =>
        Some {| mail.Header := h; mail.Body := body |}
    | Some (h, EndOfInput, _) =>
        if bool_decide (h = ∅) then None
        else Some {| mail.Header := h; mail.Body := "" |}
    | _ => None
    end.

End reader.

(** ** Notions used by the statements *)

(** Events of a delivery: everything but the logger and the reading of
    the pool file. *)
Definition delivery_event (e : Event) : bool :=
  match e with
  | Log _ _ _ | OsOpen _ | ReadMessage _ | FileClose _ => false
  | _ => true
  end.

(** Events that open a connection. *)
Definition connection_event (e : Event) : bool :=
  match e with
  | DialTimeout _ _ _ | SocksDial _ _ _ _ => true
  | _ => false
  end.

Definition dns_event (e : Event) : bool :=
  match e with
  | LookupMX _ => true
  | _ => false
  end.

(** Events of the choice of the relay: lines of the log and MX queries. *)
Definition resolver_event (e : Event) : bool :=
  match e with
  | Log _ _ _ | LookupMX _ => true
  | _ => false
  end.


(** All events of a computation satisfy [P]. *)
Definition all_events {A : Type} (P : Event → Prop) (m : M A) : Prop :=
  Forall P (trace m).

(** [cfg.Tor != nil && cfg.Tor.Enabled] *)
Definition tor_enabled (cfg : config.Config) : bool :=
  match config.Tor cfg with
  | Some tor => config.Enabled tor
  | None => false
  end.

(** The transport rule in the words of the specification, rule (b) on the
    domain of the address. *)
Definition policy_on_domain (cfg : config.Config) (address : string) : bool :=
  if negb (tor_enabled cfg) then false
  else if strings.Contains (domain (fst (splitEmailAddress address))) ".onion"
  then true
  else if config.ForceTorSMTP (config.Mail cfg) then true
  else false.

(** The test of [mxLookup] that skips an MX record. *)
Definition mx_skipped (cfg : config.Config) (mx : MX) : bool :=
  negb (config.OnionRelay (config.Mail cfg))
  && strings.HasSuffix (Host mx) ".onion.".

(** The TLS policy of [smtpRelay] for a relay. *)
Definition tls_allowed (cfg : config.Config) (relay : string) : bool :=
  config.UseTLS (config.Mail cfg)
  && negb (strings.Contains relay ".onion"
           && config.DisableTLSOnion (config.Mail cfg)).

(** The header after [mailPoolFile] has stamped it. *)
Definition stamped (cfg : config.Config) (w : World) (h : mail.HeaderT)
    : mail.HeaderT :=
  let h := <["Date" := [time_Now_Format w rfc5322date]]> h in
  let h := <["Message-Id" := [messageID w]]> h in
  <["From" := parseFrom cfg w h]> h.

(** The addresses of a header that holds an address list. *)
Definition addresses (w : World) (h : mail.HeaderT) (header : string)
    : list string :=
  match h !! header with
  | None => []
  | Some _ =>
      match mail.AddressList (mail_ParseAddressList w) h header with
      | Err _ => []
      | Ok addyList => map mail.Address addyList
      end
  end.

(** The recipients of a message: its [To] and its [Cc]. *)
Definition recipients (w : World) (h : mail.HeaderT) : list string :=
  addresses w h "To" ++ addresses w h "Cc".

(** The world [w] with another clock: other answers of [time.Parse] and
    of [daysAgo]. *)
Definition with_clock (w : World)
    (parse : string → string → Result Time) (ago : Time → Z) : World :=
  {| os_Open := os_Open w;
     os_Create := os_Create w;
     file_WriteString := file_WriteString w;
     mail_ReadMessage := mail_ReadMessage w;
     mail_ParseAddressList := mail_ParseAddressList w;
     time_Parse := parse;
     time_Now_Format := time_Now_Format w;
     range_keys := range_keys w;
     daysAgo := ago;
     messageID := messageID w;
     randPoolFilename := randPoolFilename w;
     cmd_StdinPipe := cmd_StdinPipe w;
     cmd_Start := cmd_Start w;
     cmd_Wait := cmd_Wait w;
     net_LookupMX := net_LookupMX w;
     net_DialTimeout := net_DialTimeout w;
     url_Parse := url_Parse w;
     proxy_FromURL := proxy_FromURL w;
     smtp_NewClient := smtp_NewClient w;
     smtp_SendMail := smtp_SendMail w |}.

(** A header name as [mail.ReadMessage] yields it: not empty, canonical,
    without colon and line feed, not starting with a blank. *)
Definition parsed_key (k : string) : Prop :=
  k ≠ ""
  ∧ mail.CanonicalMIMEHeaderKey k = k
  ∧ mail.mem_byte ":" k = false
  ∧ mail.mem_byte "010" k = false
  ∧ reader.starts_blank k = false.

(** A header value that is read back as it is: as [mail.ReadMessage]
    yields it, and ending neither with a blank nor with a carriage
    return. *)
Definition parsed_value (v : string) : Prop :=
  mail.mem_byte "010" v = false
  ∧ reader.TrimLeft v = v
  ∧ reader.TrimRight v = v
  ∧ reader.drop_cr v = v.

(** A header value as [mail.ReadMessage] yields it: no line feed, no
    blank at the start. *)
Definition read_value (v : string) : Prop :=
  mail.mem_byte "010" v = false ∧ reader.TrimLeft v = v.

(** A header as [mail.ReadMessage] yields it. *)
Definition read_header (m : mail.HeaderT) : Prop :=
  ∀ k vs, m !! k = Some vs → parsed_key k ∧ Forall read_value vs.

(** The byte that [mail.canonicalize] writes for the byte [c]. *)
Definition canon_byte (upper : bool) (c : ascii) : ascii :=
  if upper && mail.is_lower c then mail.to_upper c
  else if negb upper && mail.is_upper c then mail.to_lower c
  else c.

(** The first value of a header, as the only one. *)
Definition first_value (vs : list string) : list string := [hd "" vs].

(** A header without the names that start with [Yamn-]. *)
Definition without_internal (h : mail.HeaderT) : mail.HeaderT :=
  filter (fun kv => strings.HasPrefix (fst kv) "Yamn-" = false) h.

(** The line that [assemble] writes for the header name [k]. *)
Definition header_line (h : mail.HeaderT) (k : string) : string :=
  k +:+ ": " +:+ mail.Get h k.

(** The header block that [assemble] writes for the names [keys]. *)
Fixpoint header_block (h : mail.HeaderT) (keys : list string) : string :=
  match keys with
  | [] => ""
  | k :: keys' =>
      if strings.HasPrefix k "Yamn-" then header_block h keys'
      else header_line h k +:+ LF +:+ header_block h keys'
  end.

(** The lines [lines], each followed by a line feed. *)
Fixpoint block (lines : list string) : string :=
  match lines with
  | [] => ""
  | l :: rest => l +:+ LF +:+ block rest
  end.

(** ** Notions used by the further properties *)

(** The verdict of the age test of [mailPoolFile] on a header. *)
Inductive AgeCheck :=
  | Unmarked
  | BadDate (e : error)
  | TooOld
  | Current (age : Z).

Definition age_check (cfg : config.Config) (w : World) (h : mail.HeaderT)
    : AgeCheck :=
  let pooledHeader := mail.Get h "Yamn-Pooled-Date" in
  if String.eqb pooledHeader "" then Unmarked
  else
    match time_Parse w shortdate pooledHeader with
    | Err e => BadDate e
    | Ok pooledDate =>
        let age := daysAgo w pooledDate in
        if (age >? config.MaxAge (config.Pool cfg))%Z then TooOld
        else Current age
    end.

(** The age test lets the message through. *)
Definition age_passed (a : AgeCheck) : bool :=
  match a with
  | Unmarked | Current _ => true
  | BadDate _ | TooOld => false
  end.

(** The header that the age test leaves: the pooled date is deleted from
    a message that has one. *)
Definition checked_header (a : AgeCheck) (h : mail.HeaderT) : mail.HeaderT :=
  match a with
  | Current _ => delete "Yamn-Pooled-Date" h
  | _ => h
  end.

(** [mailPoolFile] after the age test, on the header [h] that the test
    leaves: the required headers are added, the recipients are read and
    the message is handed to [mailBytes]. *)
Definition pool_send (cfg : config.Config) (w : World) (filename : string)
    (msg : mail.Message) (h : mail.HeaderT) : M (bool * option error) :=
  let h := <["Date" := [time_Now_Format w rfc5322date]]> h in
  let h := <["Message-Id" := [messageID w]]> h in
  let h := <["From" := parseFrom cfg w h]> h in
  sendTo ← headToAddy w h "To";
  cc ← headToAddy w h "Cc";
  let sendTo := sendTo ++ cc in
  if (length sendTo =? 0)%nat then
    mret (true, Some (filename +:+ ": No email recipients found"))
  else
    payload ← assemble w {| mail.Header := h; mail.Body := mail.Body msg |};
    err ← mailBytes cfg w payload sendTo;
    mret (false, err).

(** The lines of the log of [mailPoolFile] between the reading of the
    message and what follows the age test. *)
Definition age_log (cfg : config.Config) (filename : string) (a : AgeCheck)
    : list Event :=
  match a with
  | Unmarked => [Log LvWarn "" ["No Yamn-Pooled-Date header in message"]]
  | BadDate e =>
      [Log LvError "%s: Failed to parse Yamn-Pooled-Date: %s" [filename; e]]
  | TooOld =>
      [Log LvInfo "%s: Refusing to mail pool file. Exceeds max age of %d days"
         [filename; pretty (config.MaxAge (config.Pool cfg))]]
  | Current age =>
      if (age >? 0)%Z
      then [Log LvTrace "Mailing pooled file that's %d days old." [pretty age]]
      else []
  end.

(** Events of the delivery into a file. *)
Definition file_event (e : Event) : bool :=
  match e with
  | Log _ _ _ | OsCreate _ | FileWriteString _ _ | FileClose _ => true
  | _ => false
  end.

(** Events of the delivery to the external command [args]: lines of the
    log and calls on the process. *)
Definition process_event (args : list string) (payload : string) (e : Event)
    : Prop :=
  match e with
  | Log _ _ _ => True
  | CmdStdinPipe a | CmdStart a | StdinClose a | CmdWait a => a = args
  | StdinWrite a p => a = args ∧ p = payload
  | _ => False
  end.

(** Events that reach the network without Tor: a DNS query, a direct
    dial, and [smtp.SendMail], which dials by itself. *)
Definition direct_event (e : Event) : bool :=
  match e with
  | LookupMX _ | DialTimeout _ _ _ | SmtpSendMail _ _ _ _ _ _ _ => true
  | _ => false
  end.

(** The events that fit a transport: nothing direct with Tor, no SOCKS
    dial without. *)
Definition transport_event (useTor : bool) (e : Event) : bool :=
  match e with
  | SocksDial _ _ _ _ => useTor
  | _ => if direct_event e then negb useTor else true
  end.

(** The commands of an SMTP session and the lines of the log. *)
Definition smtp_event (e : Event) : bool :=
  match e with
  | Log _ _ _ | SmtpExtension _ | SmtpStartTLS _ | SmtpAuth _ _ _
  | SmtpMail _ | SmtpRcpt _ | SmtpData | DataWrite _ | DataClose => true
  | _ => false
  end.

(** What [smtpRelay] does before it creates the SMTP client: lines of
    the log, the MX query and the dial. *)
Definition prelude_event (e : Event) : bool :=
  match e with
  | Log _ _ _ | LookupMX _ | DialTimeout _ _ _ | SocksDial _ _ _ _ => true
  | _ => false
  end.

(** The envelope sender of [smtpRelay]. *)
Definition sender (cfg : config.Config) : string :=
  if String.eqb (config.Sender (config.Mail cfg)) ""
  then config.Address (config.Remailer cfg)
  else config.Sender (config.Mail cfg).

(** The test of [smtpRelay] before it authenticates. *)
Definition auth_wanted (cfg : config.Config) (client : Client) : bool :=
  client_Extension client "AUTH"
  && negb (String.eqb (config.Username (config.Mail cfg)) "")
  && negb (String.eqb (config.Password (config.Mail cfg)) "").

(** The commands of a session of [smtpRelay] up to the last recipient:
    the STARTTLS test and the upgrade, the AUTH test and the
    authentication, the sender and the recipients. *)
Definition envelope_commands (cfg : config.Config) (client : Client)
    (relay : string) (sendTo : list string) : list Event :=
  SmtpExtension "STARTTLS"
  :: (if client_Extension client "STARTTLS" && tls_allowed cfg relay
      then [SmtpStartTLS true] else [])
  ++ SmtpExtension "AUTH"
  :: (if auth_wanted cfg client
      then [SmtpAuth (config.Username (config.Mail cfg))
              (config.Password (config.Mail cfg))
              (config.SMTPRelay (config.Mail cfg))]
      else [])
  ++ SmtpMail (sender cfg)
  :: map SmtpRcpt sendTo.

(** The events that carry the message. *)
Definition data_event (e : Event) : bool :=
  match e with
  | SmtpData | DataWrite _ | DataClose => true
  | _ => false
  end.

(** The events of the envelope of a session. *)
Definition envelope_event (e : Event) : bool :=
  match e with
  | SmtpExtension _ | SmtpStartTLS _ | SmtpAuth _ _ _ | SmtpMail _
  | SmtpRcpt _ => true
  | _ => false
  end.

(** The timeout of a dial, for the events that dial. *)
Definition dial_timeout (e : Event) : option Z :=
  match e with
  | DialTimeout _ _ timeout | SocksDial _ timeout _ _ => Some timeout
  | _ => None
  end.

(** The timeout that [smtpRelay] and [dialThroughTor] compute from
    [cfg.Tor.Timeout]. *)
Definition relay_timeout (tor : config.TorConfig) : Z :=
  let timeout := wrap64 (config.Timeout tor * Second) in
  if (timeout =? 0)%Z then (30 * Second)%Z else timeout.

(** The proxy that [dialThroughTor] and [validateTorConfig] address. *)
Definition tor_proxy (tor : config.TorConfig) : string :=
  if String.eqb (config.SocksProxy tor) "" then "127.0.0.1:9050"
  else config.SocksProxy tor.

(** ** The check of the Tor proxy at start-up

    [validateTorConfig] of the main file.  It closes the connection it
    opens, which no function of the delivery does: its events are those
    of the delivery and the closing of a connection.  It has no panic:
    the result is the events and the error. *)
Inductive StartupEvent :=
  | Delivery (e : Event)
  | ConnClose (c : Conn).

Definition validateTorConfig (cfg : config.Config) (w : World)
    : list StartupEvent * option error :=
  match config.Tor cfg with
  | None => ([], None)
  | Some tor =>
      if negb (config.Enabled tor) then ([], None)
      else
        let torProxy :=
          if String.eqb (config.SocksProxy tor) "" then "127.0.0.1:9050"
          else config.SocksProxy tor in
        match net_DialTimeout w "tcp" torProxy (5 * Second) with
        | Err e =>
            ([Delivery (DialTimeout "tcp" torProxy (5 * Second))],
             Some ("cannot connect to Tor SOCKS proxy at " +:+ torProxy
                   +:+ ": " +:+ e))
        | Ok conn =>
            ([Delivery (DialTimeout "tcp" torProxy (5 * Second));
              ConnClose conn;
              Delivery (Log LvInfo "Tor proxy validated: %s" [torProxy])],
             None)
        end
  end.

(** ** Sample configurations and worlds for the examples *)

Module sample.

Definition mailcfg : config.MailConfig :=
  {| config.Outfile := false; config.Pipe := ""; config.Sendmail := false;
     config.SMTPRelay := "relay.example.net"; config.SMTPPort := 587;
     config.MXRelay := true; config.OnionRelay := false;
     config.UseTLS := true; config.DisableTLSOnion := true;
     config.ForceTorSMTP := false;
     config.Username := ""; config.Password := ""; config.Sender := "";
     config.OutboundName := "Anonymous Remailer";
     config.OutboundAddy := "remailer@domain.invalid";
     config.CustomFrom := false |}.

Definition tor : config.TorConfig :=
  {| config.Enabled := true; config.SocksProxy := "";
     config.Timeout := 0; config.CircuitReset := 0;
     config.Required := false |}.

(** Tor enabled, onion relays off, nothing forced through Tor. *)
Definition cfg : config.Config :=
  {| config.Mail := mailcfg;
     config.Pool := {| config.MaxAge := 30 |};
     config.Remailer := {| config.Address := "mix@remailer.example" |};
     config.Tor := Some tor |}.

(** The same without a Tor section. *)
Definition cfg_no_tor : config.Config :=
  {| config.Mail := mailcfg;
     config.Pool := {| config.MaxAge := 30 |};
     config.Remailer := {| config.Address := "mix@remailer.example" |};
     config.Tor := None |}.

(** The same, delivering into a file. *)
Definition cfg_outfile : config.Config :=
  {| config.Mail :=
       {| config.Outfile := true; config.Pipe := ""; config.Sendmail := false;
          config.SMTPRelay := "relay.example.net"; config.SMTPPort := 587;
          config.MXRelay := true; config.OnionRelay := false;
          config.UseTLS := true; config.DisableTLSOnion := true;
          config.ForceTorSMTP := false;
          config.Username := ""; config.Password := ""; config.Sender := "";
          config.OutboundName := "Anonymous Remailer";
          config.OutboundAddy := "remailer@domain.invalid";
          config.CustomFrom := false |};
     config.Pool := {| config.MaxAge := 30 |};
     config.Remailer := {| config.Address := "mix@remailer.example" |};
     config.Tor := Some tor |}.

(** Everything through Tor to a relay that is a hidden service. *)
Definition cfg_onion_relay : config.Config :=
  {| config.Mail :=
       {| config.Outfile := false; config.Pipe := ""; config.Sendmail := false;
          config.SMTPRelay := "relayabcdefghijk.onion"; config.SMTPPort := 25;
          config.MXRelay := false; config.OnionRelay := false;
          config.UseTLS := true; config.DisableTLSOnion := true;
          config.ForceTorSMTP := true;
          config.Username := ""; config.Password := ""; config.Sender := "";
          config.OutboundName := "Anonymous Remailer";
          config.OutboundAddy := "remailer@domain.invalid";
          config.CustomFrom := false |};
     config.Pool := {| config.MaxAge := 30 |};
     config.Remailer := {| config.Address := "mix@remailer.example" |};
     config.Tor := Some tor |}.

(** A server that offers STARTTLS and accepts everything. *)
Definition client : Client :=
  {| client_Extension := fun ext => String.eqb ext "STARTTLS";
     client_StartTLS := None;
     client_Auth := fun _ _ _ => None;
     client_Mail := fun _ => None;
     client_Rcpt := fun _ => None;
     client_Data :=
       Ok {| data_Write := fun _ => None; data_Close := None |} |}.

(** Dates are counted in days; the clock of the sample worlds stands at
    day 18300, and two dates parse. *)
Definition parse (layout value : string) : Result Time :=
  if String.eqb value "1 Jan 2020" then Ok 18262%Z
  else if String.eqb value "1 Feb 2020" then Ok 18293%Z
  else Err ("parsing time: cannot parse " +:+ value).

Definition ago (t : Time) : Z := (18300 - t)%Z.

(** An address list of one bare address. *)
Definition parseAddressList (s : string) : Result (list mail.AddressT) :=
  match splitEmailAddress s with
  | (_, None) => Ok [{| mail.Name := ""; mail.Address := s |}]
  | (_, Some e) => Err ("mail: " +:+ e)
  end.

(** A world with the pool file [name] holding [msg], the MX records
    [mx] for every domain, and [client] behind every connection. *)
Definition world (name : string) (msg : mail.Message)
    (mx : Result (list MX)) : World :=
  {| os_Open := fun f => if String.eqb f name then Ok f
                         else Err ("open " +:+ f +:+ ": no such file");
     os_Create := fun f => Ok f;
     file_WriteString := fun _ _ => None;
     mail_ReadMessage := fun _ => Ok msg;
     mail_ParseAddressList := parseAddressList;
     time_Parse := parse;
     time_Now_Format := fun _ => "Thu, 6 Feb 2020 12:00:00 +0000";
     range_keys := fun h => (map_to_list h).*1;
     daysAgo := ago;
     messageID := "<20200206120000.deadbeef@remailer.example>";
     randPoolFilename := fun prefix => "pool/" +:+ prefix +:+ "0001";
     cmd_StdinPipe := fun _ => None;
     cmd_Start := fun _ => None;
     cmd_Wait := fun _ => None;
     net_LookupMX := fun _ => mx;
     net_DialTimeout := fun _ addr _ => Ok addr;
     url_Parse := fun s => Ok s;
     proxy_FromURL := fun _ =>
       Ok {| asContextDialer := Some (fun _ _ addr => Ok addr) |};
     smtp_NewClient := fun _ _ => Ok client;
     smtp_SendMail := fun _ _ _ _ _ _ _ => None |}.

Definition message (h : list (string * list string)) : mail.Message :=
  {| mail.Header := list_to_map h; mail.Body := "body" +:+ LF |}.

(** A message pooled on 1 Jan 2020, 38 days before the clock. *)
Definition old_message : mail.Message :=
  message [("Yamn-Pooled-Date", ["1 Jan 2020"]); ("To", ["bob@example.com"])].

(** A message whose pooled date does not parse. *)
Definition odd_message : mail.Message :=
  message [("Yamn-Pooled-Date", ["yesterday"]); ("To", ["bob@example.com"])].

(** A message whose pooled-date header has an empty value. *)
Definition empty_marker_message : mail.Message :=
  message [("Yamn-Pooled-Date", [""]); ("To", ["bob@example.com"])].

(** A message without a pooled-date header. *)
Definition plain_message : mail.Message :=
  message [("To", ["bob@example.com"]); ("Subject", ["hello"])].

(** A message without a pooled-date header and without recipients. *)
Definition lost_message : mail.Message :=
  message [("Subject", ["hello"])].

(** A message with a header that has two values. *)
Definition relayed_message : mail.Message :=
  message [("Received", ["from a"; "from b"])].

(** The bytes of [plain_message] and of [relayed_message]. *)
Definition plain_input : string :=
  "To: bob@example.com" +:+ LF +:+ "Subject: hello" +:+ LF
  +:+ LF +:+ "body" +:+ LF.

Definition relayed_input : string :=
  "Received: from a" +:+ LF +:+ "Received: from b" +:+ LF
  +:+ LF +:+ "body" +:+ LF.

Definition mxs : Result (list MX) :=
  Ok [ {| Host := "hidden.onion."; Pref := 5 |};
       {| Host := "mx1.example.com."; Pref := 10 |} ].

(** A message pooled on 1 Feb 2020, 7 days before the clock. *)
Definition fresh_message : mail.Message :=
  message [("Yamn-Pooled-Date", ["1 Feb 2020"]); ("To", ["bob@example.com"])].


(** Delivery to the configured relay, with credentials. *)
Definition cfg_auth : config.Config :=
  {| config.Mail :=
       {| config.Outfile := false; config.Pipe := ""; config.Sendmail := false;
          config.SMTPRelay := "relay.example.net"; config.SMTPPort := 587;
          config.MXRelay := false; config.OnionRelay := false;
          config.UseTLS := true; config.DisableTLSOnion := true;
          config.ForceTorSMTP := false;
          config.Username := "mix"; config.Password := "secret";
          config.Sender := "";
          config.OutboundName := "Anonymous Remailer";
          config.OutboundAddy := "remailer@domain.invalid";
          config.CustomFrom := false |};
     config.Pool := {| config.MaxAge := 30 |};
     config.Remailer := {| config.Address := "mix@remailer.example" |};
     config.Tor := Some tor |}.

(** A server that offers STARTTLS and AUTH and accepts everything. *)
Definition auth_client : Client :=
  {| client_Extension := fun _ => true;
     client_StartTLS := None;
     client_Auth := fun _ _ _ => None;
     client_Mail := fun _ => None;
     client_Rcpt := fun _ => None;
     client_Data :=
       Ok {| data_Write := fun _ => None; data_Close := None |} |}.

(** The world [w] with the server [c] behind every connection. *)
Definition with_client (w : World) (c : Client) : World :=
  {| os_Open := os_Open w;
     os_Create := os_Create w;
     file_WriteString := file_WriteString w;
     mail_ReadMessage := mail_ReadMessage w;
     mail_ParseAddressList := mail_ParseAddressList w;
     time_Parse := time_Parse w;
     time_Now_Format := time_Now_Format w;
     range_keys := range_keys w;
     daysAgo := daysAgo w;
     messageID := messageID w;
     randPoolFilename := randPoolFilename w;
     cmd_StdinPipe := cmd_StdinPipe w;
     cmd_Start := cmd_Start w;
     cmd_Wait := cmd_Wait w;
     net_LookupMX := net_LookupMX w;
     net_DialTimeout := net_DialTimeout w;
     url_Parse := url_Parse w;
     proxy_FromURL := proxy_FromURL w;
     smtp_NewClient := fun _ _ => Ok c;
     smtp_SendMail := smtp_SendMail w |}.

(** The world of the examples that follow. *)
Definition w1 : World := world "m1" plain_message mxs.

End sample.

(** * Properties *)

(** ** Strings *)

Section StringFacts.

Import strings.

Lemma append_cons a s t : String a s +:+ t = String a (s +:+ t).
Proof. reflexivity. Qed.

Lemma append_nil_l s : "" +:+ s = s.
Proof. reflexivity. Qed.

Lemma append_nil_r s : s +:+ "" = s.
Proof. induction s as [|a s IH]; [done|]. by rewrite append_cons, IH. Qed.

Lemma append_assoc s t u : (s +:+ t) +:+ u = s +:+ (t +:+ u).
Proof. induction s as [|a s IH]; [done|]. by rewrite !append_cons, IH. Qed.

Lemma HasPrefix_byte a s c :
  HasPrefix (String a s) (String c "") = Ascii.eqb a c.
Proof. cbn [HasPrefix]. by destruct (Ascii.eqb a c). Qed.

Lemma split_from_byte a s c :
  split_from (String a s) (String c "") 0 =
  if Ascii.eqb a c then "" :: split_from s (String c "") 0
  else cons_byte a (split_from s (String c "") 0).
Proof.
  change (split_from (String a s) (String c "") 0)
    with (if HasPrefix (String a s) (String c "")
          then "" :: split_from s (String c "") 0
          else cons_byte a (split_from s (String c "") 0)).
  by rewrite HasPrefix_byte.
Qed.

Lemma split_from_byte_length s c :
  length (split_from s (String c "") 0) = S (CountByte s c).
Proof.
  induction s as [|a s IH]; [done|].
  rewrite split_from_byte. cbn [CountByte].
  destruct (Ascii.eqb a c); cbn [length]; [by rewrite IH|].
  destruct (split_from s (String c "") 0); cbn in *; lia.
Qed.

Lemma Contains_byte s c :
  Contains s (String c "") = negb (CountByte s c =? 0)%nat.
Proof.
  induction s as [|a s IH]; [done|].
  cbn [Contains CountByte]. rewrite HasPrefix_byte, IH.
  by destruct (Ascii.eqb a c).
Qed.

Lemma Join_cons_byte a l sep :
  l ≠ [] → Join (cons_byte a l) sep = String a (Join l sep).
Proof. destruct l as [|p [|q l]]; done. Qed.

(** Joining the parts of a split gives the string back. *)
Lemma split_from_byte_join s c :
  Join (split_from s (String c "") 0) (String c "") = s.
Proof.
  induction s as [|a s IH]; [done|].
  rewrite split_from_byte.
  pose proof (split_from_byte_length s c) as Hlen.
  destruct (Ascii.eqb_spec a c) as [->|Hne].
  - destruct (split_from s (String c "") 0) as [|p l] eqn:E; [done|].
    change (Join ("" :: p :: l) (String c ""))
      with ("" +:+ String c "" +:+ Join (p :: l) (String c "")).
    by rewrite IH.
  - rewrite Join_cons_byte; [by rewrite IH|].
    by destruct (split_from s (String c "") 0).
Qed.

(** No part of a split holds the separator. *)
Lemma split_from_byte_parts s c :
  Forall (fun p => CountByte p c = 0) (split_from s (String c "") 0).
Proof.
  induction s as [|a s IH]; [by repeat constructor|].
  rewrite split_from_byte.
  destruct (Ascii.eqb a c) eqn:E; [by constructor|].
  destruct IH as [|p l Hp Hl]; cbn [cons_byte].
  - repeat constructor. cbn. by rewrite E.
  - constructor; [|done]. cbn [CountByte]. by rewrite E, Hp.
Qed.

Lemma HasPrefix_app s t p :
  HasPrefix s p = true → HasPrefix (s +:+ t) p = true.
Proof.
  revert s. induction p as [|c p IH]; intros s; [done|].
  destruct s as [|a s]; [done|]. rewrite append_cons. cbn [HasPrefix].
  intros [-> Hp]%andb_prop. by rewrite (IH _ Hp).
Qed.

Lemma Contains_app_l s t p :
  Contains s p = true → Contains (s +:+ t) p = true.
Proof.
  induction s as [|a s IH].
  - cbn. rewrite orb_false_r. destruct p; [|done]. intros _. by destruct t.
  - rewrite append_cons. cbn [Contains].
    intros [Hp|Hc]%orb_prop.
    + pose proof (HasPrefix_app (String a s) t p Hp) as H.
      rewrite append_cons in H. by rewrite H.
    + rewrite (IH Hc). apply orb_true_r.
Qed.

Lemma Contains_app_r s t p :
  Contains t p = true → Contains (s +:+ t) p = true.
Proof.
  intros Ht. induction s as [|a s IH]; [done|].
  rewrite append_cons. cbn [Contains]. rewrite IH. apply orb_true_r.
Qed.

End StringFacts.

(** The library functions on the inputs of Go's documentation. *)

Example Split_three : strings.Split "a@b@c" "@" = ["a"; "b"; "c"].
Proof. reflexivity. Qed.

Example Split_empty : strings.Split "" "@" = [""].
Proof. reflexivity. Qed.

Example Split_long_separator :
  strings.Split "a man a plan a canal panama" "a "
  = ["" ; "man "; "plan "; "canal panama"].
Proof. reflexivity. Qed.

Example Split_no_overlap : strings.Split "aaa" "aa" = [""; "a"].
Proof. reflexivity. Qed.

Example Fields_blanks : strings.Fields "  foo bar  baz   " = ["foo"; "bar"; "baz"].
Proof. reflexivity. Qed.

Example Fields_none : strings.Fields "   " = [].
Proof. reflexivity. Qed.

Example HasSuffix_onion : strings.HasSuffix "foo.onion" ".onion" = true.
Proof. reflexivity. Qed.

Example HasSuffix_final_dot : strings.HasSuffix "foo.onion." ".onion" = false.
Proof. reflexivity. Qed.

Example Contains_onion : strings.Contains "user@foo.onion.example" ".onion" = true.
Proof. reflexivity. Qed.

Example Join_two : strings.Join ["a@x.com"; "b@x.com"] "," = "a@x.com,b@x.com".
Proof. reflexivity. Qed.

Example CanonicalMIMEHeaderKey_lower :
  mail.CanonicalMIMEHeaderKey "yamn-pooled-date" = "Yamn-Pooled-Date".
Proof. reflexivity. Qed.

Example CanonicalMIMEHeaderKey_upper :
  mail.CanonicalMIMEHeaderKey "MESSAGE-ID" = "Message-Id".
Proof. reflexivity. Qed.

Example CanonicalMIMEHeaderKey_invalid :
  mail.CanonicalMIMEHeaderKey "not a key" = "not a key".
Proof. reflexivity. Qed.

Example Get_first_value :
  mail.Get {[ "Received" := ["from a"; "from b"] ]} "received" = "from a".
Proof. vm_compute. reflexivity. Qed.

Example wrap64_small : wrap64 (45 * Second) = 45000000000%Z.
Proof. reflexivity. Qed.

Example wrap64_overflow : wrap64 (2 ^ 55 * Second) = 0%Z.
Proof. reflexivity. Qed.

(** ** Address parsing *)

Example splitEmailAddress_ok :
  splitEmailAddress "user@foo.onion"
  = ({| name := "user"; domain := "foo.onion" |}, None).
Proof. reflexivity. Qed.

Example splitEmailAddress_none :
  splitEmailAddress "user"
  = (emailAddress_zero, Some "user: Email address contains no '@'").
Proof. reflexivity. Qed.

Example splitEmailAddress_two :
  splitEmailAddress "a@b@c"
  = (emailAddress_zero, Some "a@b@c: Malformed email address").
Proof. reflexivity. Qed.

(** What [splitEmailAddress] returns, by the number of ['@']. *)
Lemma splitEmailAddress_cases (addy : string) :
  match splitEmailAddress addy with
  | (e, None) =>
      strings.CountByte addy "@" = 1
      ∧ addy = name e +:+ "@" +:+ domain e
      ∧ strings.CountByte (name e) "@" = 0
      ∧ strings.CountByte (domain e) "@" = 0
  | (e, Some _) => strings.CountByte addy "@" ≠ 1 ∧ e = emailAddress_zero
  end.
Proof.
  unfold splitEmailAddress. rewrite Contains_byte, negb_involutive.
  destruct (Nat.eqb_spec (strings.CountByte addy "@") 0) as [E|E].
  { split; [lia|done]. }
  unfold strings.Split.
  pose proof (split_from_byte_length addy "@") as Hlen.
  pose proof (split_from_byte_join addy "@") as Hjoin.
  pose proof (split_from_byte_parts addy "@") as Hparts.
  destruct (strings.split_from addy "@" 0) as [|c0 [|c1 [|c2 l]]];
    cbn [length] in Hlen; try (split; [lia|done]).
  apply Forall_cons in Hparts as [H0 Hparts].
  apply Forall_cons in Hparts as [H1 _].
  cbn [name domain]. split; [lia|]. split; [|done].
  symmetry. exact Hjoin.
Qed.

(** C8: [splitEmailAddress] fails exactly when the address does not hold
    exactly one ['@'] (none, or more than one); with exactly one it
    returns no error and the parts before and after that ['@'], neither
    of which holds an ['@'].  The function is pure: it has no trace. *)
Theorem splitEmailAddress_spec (addy : string) :
  (is_Some (snd (splitEmailAddress addy)) ↔ strings.CountByte addy "@" ≠ 1)
  ∧ match splitEmailAddress addy with
    | (e, None) =>
        addy = name e +:+ "@" +:+ domain e
        ∧ strings.CountByte (name e) "@" = 0
        ∧ strings.CountByte (domain e) "@" = 0
    | (e, Some _) => e = emailAddress_zero
    end.
Proof.
  pose proof (splitEmailAddress_cases addy) as H.
  destruct (splitEmailAddress addy) as [e [err|]]; cbn [snd].
  - destruct H as [Hn He]. split; [|done]. split; [done|]. by eexists.
  - destruct H as (H1 & Ha & Hn & Hd). split; [|done].
    split; [intros [? [=]]|]. intros Hne. by destruct Hne.
Qed.

(** ** Computations *)

Lemma bind_Done {A B} (t : list Event) (a : A) (f : A → M B) :
  Run t (Done a) ≫= f = Run (t ++ trace (f a)) (outcome (f a)).
Proof. reflexivity. Qed.

Lemma bind_Panic {A B} (t : list Event) (msg : string) (f : A → M B) :
  Run t (Panic msg) ≫= f = Run t (Panic msg).
Proof. reflexivity. Qed.

Lemma M_eta {A} (m : M A) : m = Run (trace m) (outcome m).
Proof. by destruct m. Qed.

Lemma trace_bind {A B} (m : M A) (f : A → M B) :
  trace (m ≫= f) =
  trace m ++ match outcome m with Done a => trace (f a) | Panic _ => [] end.
Proof.
  destruct m as [t [a|msg]]; cbn; [done|]. by rewrite app_nil_r.
Qed.

Lemma outcome_bind {A B} (m : M A) (f : A → M B) :
  outcome (m ≫= f) =
  match outcome m with Done a => outcome (f a) | Panic msg => Panic msg end.
Proof. by destruct m as [t [a|msg]]. Qed.

(** ** Transport policy *)

Example shouldUseTor_onion :
  shouldUseTor sample.cfg "user@foo.onion" = true.
Proof. reflexivity. Qed.

Example shouldUseTor_clearnet :
  shouldUseTor sample.cfg "user@example.com" = false.
Proof. reflexivity. Qed.

Example shouldUseTor_no_tor :
  shouldUseTor sample.cfg_no_tor "user@foo.onion" = false.
Proof. reflexivity. Qed.

(** The domain of an address is a part of the address. *)
Lemma Contains_domain (address substr : string) :
  strings.Contains (domain (fst (splitEmailAddress address))) substr = true →
  strings.Contains address substr = true
  ∨ domain (fst (splitEmailAddress address)) = "".
Proof.
  pose proof (splitEmailAddress_cases address) as H.
  destruct (splitEmailAddress address) as [e [err|]]; cbn [fst].
  - destruct H as [_ ->]. by right.
  - destruct H as (_ & Ha & _). intros Hc. left. rewrite Ha.
    by do 2 apply Contains_app_r.
Qed.

(** C2, as the code has it: without Tor (no Tor section, or Tor not
    enabled) the answer is false whatever the address; otherwise it is
    true when the address, anywhere in it and not only in its domain,
    contains [.onion], whatever [OnionRelay] says, which the code does not
    read; otherwise it is true when [ForceTorSMTP] is set; otherwise false.
    An address whose domain contains [.onion] contains it. *)
Theorem shouldUseTor_rules (cfg : config.Config) (address : string) :
  shouldUseTor cfg address =
    (if negb (tor_enabled cfg) then false
     else if strings.Contains address ".onion" then true
     else if config.ForceTorSMTP (config.Mail cfg) then true
     else false)
  ∧ implb (strings.Contains (domain (fst (splitEmailAddress address))) ".onion")
          (strings.Contains address ".onion") = true.
Proof.
  split.
  - unfold shouldUseTor, tor_enabled. by destruct (config.Tor cfg).
  - destruct (strings.Contains (domain _) _) eqn:E; [|done].
    pose proof E as E'.
    apply Contains_domain in E as [->|E]; [done|].
    by rewrite E in E'.
Qed.

(** C2, as it is stated, fails: with Tor enabled and nothing forced, the
    address [a.onion@example.com] has a domain without [.onion], and the
    answer is true. *)
Lemma shouldUseTor_local_part_counterexample :
  tor_enabled sample.cfg = true
  ∧ config.ForceTorSMTP (config.Mail sample.cfg) = false
  ∧ splitEmailAddress "a.onion@example.com"
    = ({| name := "a.onion"; domain := "example.com" |}, None)
  ∧ strings.Contains "example.com" ".onion" = false
  ∧ policy_on_domain sample.cfg "a.onion@example.com" = false
  ∧ shouldUseTor sample.cfg "a.onion@example.com" = true.
Proof. repeat split. Qed.

(** ** Host resolution *)

Example mxLookup_first_usable :
  mxLookup sample.cfg
    (sample.world "m1" sample.plain_message sample.mxs) "bob@example.com"
  = Run [ LookupMX "example.com";
          Log LvTrace "DNS lookup: Hostname=%s, MX=%s"
            ["example.com"; "mx1.example.com."] ]
        (Done ("mx1.example.com.", None)).
Proof. reflexivity. Qed.

Example mxLookup_malformed :
  mxLookup sample.cfg
    (sample.world "m1" sample.plain_message sample.mxs) "bob"
  = Run [] (Done ("", Some "bob: Email address contains no '@'")).
Proof. reflexivity. Qed.

(** C3: for a well-formed address whose domain ends in [.onion],
    [mxLookup] returns the domain itself and no error; its only event is
    a line of the log, so that no DNS query is made. *)
Theorem mxLookup_onion (cfg : config.Config) (w : World)
    (email : string) (e : emailAddress) :
  splitEmailAddress email = (e, None) →
  strings.HasSuffix (domain e) ".onion" = true →
  mxLookup cfg w email
  = Run [Log LvTrace "Detected .onion address: %s - Using direct routing"
           [domain e]]
        (Done (domain e, None))
  ∧ Forall (fun ev => dns_event ev = false) (trace (mxLookup cfg w email)).
Proof.
  intros Hsplit Honion.
  assert (mxLookup cfg w email
          = Run [Log LvTrace "Detected .onion address: %s - Using direct routing"
                   [domain e]]
                (Done (domain e, None))) as ->.
  { unfold mxLookup. rewrite Hsplit, Honion. reflexivity. }
  split; [done|]. by repeat constructor.
Qed.

Lemma mxLookup_onion_witness :
  mxLookup sample.cfg
    (sample.world "m1" sample.plain_message sample.mxs) "user@foo.onion"
  = Run [Log LvTrace "Detected .onion address: %s - Using direct routing"
           ["foo.onion"]]
        (Done ("foo.onion", None)).
Proof.
  apply (mxLookup_onion sample.cfg
           (sample.world "m1" sample.plain_message sample.mxs)
           "user@foo.onion" {| name := "user"; domain := "foo.onion" |});
    reflexivity.
Defined.

(** The loop over the MX records stops at the first record that is not
    skipped. *)
Lemma mxLookup_range_find (cfg : config.Config) (mxRecords : list MX) :
  mxLookup_range cfg mxRecords =
  match find (fun mx => negb (mx_skipped cfg mx)) mxRecords with
  | Some mx => Host mx
  | None => ""
  end.
Proof.
  induction mxRecords as [|mx rest IH]; [done|].
  cbn [mxLookup_range find]. unfold mx_skipped at 1.
  by destruct (negb _ && _).
Qed.

(** C4: for a well-formed address whose domain does not end in [.onion],
    [mxLookup] returns no error.  When the MX lookup fails it returns the
    domain.  When the lookup succeeds, with the non-empty host names that
    [net.LookupMX] returns, it returns the host of the first record, in
    the order of the answer, that is not skipped, and the domain when all
    records are skipped; a record is skipped when [OnionRelay] is off and
    its host, in the form of the DNS with the final dot, ends in
    [.onion.]. *)
Theorem mxLookup_dns (cfg : config.Config) (w : World)
    (email : string) (e : emailAddress) :
  splitEmailAddress email = (e, None) →
  strings.HasSuffix (domain e) ".onion" = false →
  (∀ mxRecords, net_LookupMX w (domain e) = Ok mxRecords →
     Forall (fun mx => Host mx ≠ "") mxRecords) →
  outcome (mxLookup cfg w email)
  = Done (match net_LookupMX w (domain e) with
          | Err _ => domain e
          | Ok mxRecords =>
              match find (fun mx => negb (mx_skipped cfg mx)) mxRecords with
              | Some mx => Host mx
              | None => domain e
              end
          end, None).
Proof.
  intros Hsplit Honion Hhosts.
  unfold mxLookup. rewrite Hsplit, Honion.
  destruct (net_LookupMX w (domain e)) as [mxRecords|err] eqn:Hmx; [|done].
  specialize (Hhosts mxRecords eq_refl).
  unfold call. rewrite bind_Done. cbv beta iota zeta.
  rewrite mxLookup_range_find.
  destruct (find _ mxRecords) as [mx|] eqn:Hfind; [|done].
  apply find_some in Hfind as [Hin _].
  rewrite Forall_forall in Hhosts.
  apply list_elem_of_In, Hhosts in Hin.
  destruct (String.eqb_spec (Host mx) ""); done.
Qed.

Lemma mxLookup_dns_witness :
  outcome (mxLookup sample.cfg
             (sample.world "m1" sample.plain_message sample.mxs)
             "bob@example.com")
  = Done ("mx1.example.com.", None).
Proof.
  apply (mxLookup_dns sample.cfg
           (sample.world "m1" sample.plain_message sample.mxs)
           "bob@example.com" {| name := "bob"; domain := "example.com" |}).
  - reflexivity.
  - reflexivity.
  - intros mxRecords [= <-]. by repeat constructor.
Defined.

(** ** The pool *)

Example mailPoolFile_old :
  mailPoolFile sample.cfg
    (sample.world "m1" sample.old_message sample.mxs) "m1"
  = Run [ OsOpen "m1"; ReadMessage "m1";
          Log LvInfo "%s: Refusing to mail pool file. Exceeds max age of %d days"
            ["m1"; "30"];
          FileClose "m1" ]
        (Done (true, None)).
Proof. vm_compute. reflexivity. Qed.

Example mailPoolFile_missing :
  mailPoolFile sample.cfg
    (sample.world "m1" sample.old_message sample.mxs) "m2"
  = Run [ OsOpen "m2";
          Log LvError "Failed to read file for mailing: %s"
            ["open m2: no such file"] ]
        (Done (false, Some "open m2: no such file")).
Proof. vm_compute. reflexivity. Qed.

Lemma Get_lookup (h : mail.HeaderT) (key : string) :
  mail.CanonicalMIMEHeaderKey key = key →
  mail.Get h key = match h !! key with Some (v :: _) => v | _ => "" end.
Proof. intros Hk. unfold mail.Get. by rewrite Hk. Qed.

Lemma Get_pooled_date (h : mail.HeaderT) :
  mail.Get h "Yamn-Pooled-Date"
  = match h !! "Yamn-Pooled-Date" with Some (v :: _) => v | _ => "" end.
Proof. by apply Get_lookup. Qed.

(** C1: a pool file that opens and parses, whose [Yamn-Pooled-Date]
    header is present with a first value that [time.Parse] accepts (it
    accepts no empty string), and whose age in days exceeds
    [cfg.Pool.MaxAge], is flagged for deletion without an error:
    [mailPoolFile] opens and reads the file, logs the refusal and closes
    the file.  Nothing is assembled and no delivery sink is reached,
    whatever the sinks would answer. *)
Theorem mailPoolFile_expired (cfg : config.Config) (w : World)
    (filename : string) (f : File) (msg : mail.Message)
    (v : string) (vs : list string) (pooledDate : Time) :
  os_Open w filename = Ok f →
  mail_ReadMessage w f = Ok msg →
  mail.Header msg !! "Yamn-Pooled-Date" = Some (v :: vs) →
  (∀ t, time_Parse w shortdate "" ≠ Ok t) →
  time_Parse w shortdate v = Ok pooledDate →
  (daysAgo w pooledDate > config.MaxAge (config.Pool cfg))%Z →
  mailPoolFile cfg w filename
  = Run [ OsOpen filename; ReadMessage f;
          Log LvInfo "%s: Refusing to mail pool file. Exceeds max age of %d days"
            [filename; pretty (config.MaxAge (config.Pool cfg))];
          FileClose f ]
        (Done (true, None))
  ∧ Forall (fun ev => delivery_event ev = false)
      (trace (mailPoolFile cfg w filename)).
Proof.
  intros Hopen Hread Hhdr Hempty Hparse Hage.
  assert (mailPoolFile cfg w filename
          = Run [ OsOpen filename; ReadMessage f;
                  Log LvInfo
                    "%s: Refusing to mail pool file. Exceeds max age of %d days"
                    [filename; pretty (config.MaxAge (config.Pool cfg))];
                  FileClose f ]
                (Done (true, None))) as ->.
  { unfold mailPoolFile, call. rewrite Hopen, bind_Done. cbv beta iota.
    rewrite Hread, bind_Done. cbv beta iota zeta.
    rewrite Get_pooled_date, Hhdr.
    destruct (String.eqb_spec v "") as [->|_]; [by destruct (Hempty pooledDate)|].
    rewrite Hparse.
    apply Z.gtb_gt in Hage. rewrite Hage. reflexivity. }
  split; [done|]. by repeat constructor.
Qed.

Lemma mailPoolFile_expired_witness :
  mailPoolFile sample.cfg
    (sample.world "m1" sample.old_message sample.mxs) "m1"
  = Run [ OsOpen "m1"; ReadMessage "m1";
          Log LvInfo "%s: Refusing to mail pool file. Exceeds max age of %d days"
            ["m1"; pretty 30%Z];
          FileClose "m1" ]
        (Done (true, None)).
Proof.
  apply (mailPoolFile_expired sample.cfg
           (sample.world "m1" sample.old_message sample.mxs)
           "m1" "m1" sample.old_message "1 Jan 2020" [] 18262%Z).
  - reflexivity.
  - reflexivity.
  - vm_compute. reflexivity.
  - intros t. vm_compute. discriminate.
  - reflexivity.
  - vm_compute. reflexivity.
Defined.

(** C6, amended: when the first value of the [Yamn-Pooled-Date] header
    is not empty and [time.Parse] rejects it, [mailPoolFile] returns the
    parse error with the delete flag off, after opening and reading the
    file and logging the error; no delivery sink is reached. *)
Theorem mailPoolFile_unparsable (cfg : config.Config) (w : World)
    (filename : string) (f : File) (msg : mail.Message)
    (v : string) (vs : list string) (e : error) :
  os_Open w filename = Ok f →
  mail_ReadMessage w f = Ok msg →
  mail.Header msg !! "Yamn-Pooled-Date" = Some (v :: vs) →
  v ≠ "" →
  time_Parse w shortdate v = Err e →
  mailPoolFile cfg w filename
  = Run [ OsOpen filename; ReadMessage f;
          Log LvError "%s: Failed to parse Yamn-Pooled-Date: %s" [filename; e];
          FileClose f ]
        (Done (false, Some e))
  ∧ Forall (fun ev => delivery_event ev = false)
      (trace (mailPoolFile cfg w filename)).
Proof.
  intros Hopen Hread Hhdr Hne Hparse.
  assert (mailPoolFile cfg w filename
          = Run [ OsOpen filename; ReadMessage f;
                  Log LvError "%s: Failed to parse Yamn-Pooled-Date: %s"
                    [filename; e];
                  FileClose f ]
                (Done (false, Some e))) as ->.
  { unfold mailPoolFile, call. rewrite Hopen, bind_Done. cbv beta iota.
    rewrite Hread, bind_Done. cbv beta iota zeta.
    rewrite Get_pooled_date, Hhdr.
    destruct (String.eqb_spec v "") as [->|_]; [done|].
    rewrite Hparse. reflexivity. }
  split; [done|]. by repeat constructor.
Qed.

Lemma mailPoolFile_unparsable_witness :
  mailPoolFile sample.cfg
    (sample.world "m1" sample.odd_message sample.mxs) "m1"
  = Run [ OsOpen "m1"; ReadMessage "m1";
          Log LvError "%s: Failed to parse Yamn-Pooled-Date: %s"
            ["m1"; "parsing time: cannot parse yesterday"];
          FileClose "m1" ]
        (Done (false, Some "parsing time: cannot parse yesterday")).
Proof.
  apply (mailPoolFile_unparsable sample.cfg
           (sample.world "m1" sample.odd_message sample.mxs)
           "m1" "m1" sample.odd_message "yesterday" []
           "parsing time: cannot parse yesterday").
  - reflexivity.
  - reflexivity.
  - vm_compute. reflexivity.
  - discriminate.
  - reflexivity.
Defined.

(** The run of the pool file whose [Yamn-Pooled-Date] header is present
    with an empty value: the message is written to the out file. *)
Example mailPoolFile_empty_marker :
  mailPoolFile sample.cfg_outfile
    (sample.world "m1" sample.empty_marker_message sample.mxs) "m1"
  = Run [ OsOpen "m1"; ReadMessage "m1";
          Log LvWarn "" ["No Yamn-Pooled-Date header in message"];
          Log LvError "Ignoring internal mail header in assemble phase: %s"
            ["Yamn-Pooled-Date"];
          Log LvTrace "Message recipients are: %s" ["bob@example.com"];
          Log LvTrace "Writing output to %s" ["pool/outfile-0001"];
          OsCreate "pool/outfile-0001";
          FileWriteString "pool/outfile-0001"
            (strings.Join
               [ "Message-Id: <20200206120000.deadbeef@remailer.example>";
                 "From: Anonymous Remailer <remailer@domain.invalid>";
                 "To: bob@example.com";
                 "Date: Thu, 6 Feb 2020 12:00:00 +0000";
                 ""; "body"; "" ] LF);
          FileClose "pool/outfile-0001";
          FileClose "m1" ]
        (Done (false, None)).
Proof. vm_compute. reflexivity. Qed.

(** What [headToAddy] and [assemble] do. *)

Lemma headToAddy_run (w : World) (h : mail.HeaderT) (header : string) :
  outcome (headToAddy w h header) = Done (addresses w h header)
  ∧ Forall (fun ev => delivery_event ev = false) (trace (headToAddy w h header)).
Proof.
  unfold headToAddy, addresses.
  destruct (h !! header); [|by split].
  destruct (mail.AddressList _ _ _); split; try done. by repeat constructor.
Qed.

Lemma assemble_range_run (msg : mail.Message) (keys : list string) (buf : string) :
  assemble_range msg keys buf
  = Run (map (fun k => Log LvError
                 "Ignoring internal mail header in assemble phase: %s" [k])
           (base.filter (fun k => strings.HasPrefix k "Yamn-" = true) keys))
        (Done (buf +:+ header_block (mail.Header msg) keys)).
Proof.
  revert buf. induction keys as [|k keys IH]; intros buf.
  - cbn. by rewrite append_nil_r.
  - cbn [assemble_range header_block]. rewrite filter_cons.
    destruct (strings.HasPrefix k "Yamn-") eqn:E.
    + rewrite decide_True by done. unfold log, call.
      rewrite bind_Done, IH. reflexivity.
    + rewrite decide_False by done. rewrite IH. unfold header_line.
      by rewrite !append_assoc.
Qed.

Lemma assemble_run (w : World) (msg : mail.Message) :
  let keys := range_keys w (mail.Header msg) in
  assemble w msg
  = Run (map (fun k => Log LvError
                 "Ignoring internal mail header in assemble phase: %s" [k])
           (base.filter (fun k => strings.HasPrefix k "Yamn-" = true) keys))
        (Done (header_block (mail.Header msg) keys +:+ LF +:+ mail.Body msg)).
Proof.
  intros keys. unfold assemble. fold keys. rewrite assemble_range_run, bind_Done.
  cbn [trace outcome mret M_mret]. by rewrite app_nil_r.
Qed.

Lemma addresses_stamped cfg w h header :
  header ≠ "Date" → header ≠ "Message-Id" → header ≠ "From" →
  mail.CanonicalMIMEHeaderKey header = header →
  addresses w (stamped cfg w h) header = addresses w h header.
Proof.
  intros H1 H2 H3 Hc. unfold addresses, mail.AddressList.
  rewrite !Get_lookup by done. unfold stamped.
  by rewrite !lookup_insert_ne.
Qed.

Lemma recipients_stamped cfg w h :
  recipients w (stamped cfg w h) = recipients w h.
Proof. unfold recipients. by rewrite !addresses_stamped. Qed.

Lemma mailBytes_trace cfg w payload sendTo :
  ∃ t, trace (mailBytes cfg w payload sendTo)
       = Log LvTrace "Message recipients are: %s" [strings.Join sendTo ","] :: t.
Proof.
  unfold mailBytes, log, call. rewrite bind_Done. cbn [trace app]. eauto.
Qed.

(** C10, amended: a pool file that opens and parses and has no
    [Yamn-Pooled-Date] header, and whose [To] and [Cc] headers yield at
    least one recipient, goes to the delivery sink without an age check:
    after events that belong to no delivery (the file is opened and read,
    lines are logged), [mailBytes] runs on the payload assembled from the
    stamped header and on the recipients, the file is closed, and the
    result is the error of [mailBytes] with the delete flag off.  The run
    is the same whatever [time.Parse] and [daysAgo] would answer, so the
    age of the entry plays no part. *)
Theorem mailPoolFile_no_marker (cfg : config.Config) (w : World)
    (filename : string) (f : File) (msg : mail.Message) :
  os_Open w filename = Ok f →
  mail_ReadMessage w f = Ok msg →
  mail.Header msg !! "Yamn-Pooled-Date" = None →
  recipients w (mail.Header msg) ≠ [] →
  (∃ pre payload,
     Forall (fun ev => delivery_event ev = false) pre
     ∧ outcome (assemble w {| mail.Header := stamped cfg w (mail.Header msg);
                              mail.Body := mail.Body msg |}) = Done payload
     ∧ mailPoolFile cfg w filename
       = Run (pre ++ trace (mailBytes cfg w payload (recipients w (mail.Header msg)))
                  ++ [FileClose f])
           (match outcome (mailBytes cfg w payload (recipients w (mail.Header msg))) with
            | Done err => Done (false, err)
            | Panic m => Panic m
            end))
  ∧ (∀ parse ago,
       mailPoolFile cfg (with_clock w parse ago) filename
       = mailPoolFile cfg w filename).
Proof.
  intros Hopen Hread Hhdr Hrcpt. split.
  - set (h' := stamped cfg w (mail.Header msg)).
    set (m' := {| mail.Header := h'; mail.Body := mail.Body msg |}).
    pose proof (headToAddy_run w h' "To") as [HoTo HtTo].
    pose proof (headToAddy_run w h' "Cc") as [HoCc HtCc].
    pose proof (assemble_run w m') as Hasm. cbv zeta in Hasm.
    exists ([OsOpen filename; ReadMessage f;
             Log LvWarn "" ["No Yamn-Pooled-Date header in message"]]
            ++ trace (headToAddy w h' "To") ++ trace (headToAddy w h' "Cc")
            ++ trace (assemble w m')),
           (header_block h' (range_keys w h') +:+ LF +:+ mail.Body msg).
    split; [|split; [by rewrite Hasm|]].
    { repeat (apply Forall_app; split); try done.
      - by repeat constructor.
      - rewrite Hasm. cbn [trace]. apply Forall_forall.
        by intros ev (k & -> & _)%list_elem_of_fmap. }
    unfold mailPoolFile, call. rewrite Hopen, bind_Done. cbv beta iota.
    rewrite Hread, bind_Done. cbv beta iota zeta.
    rewrite Get_pooled_date, Hhdr. cbn [String.eqb].
    unfold log, call. rewrite bind_Done.
    change (<["From":=parseFrom cfg w
                    (<["Message-Id":=[messageID w]]>
                       (<["Date":=[time_Now_Format w rfc5322date]]>
                          (mail.Header msg)))]>
            (<["Message-Id":=[messageID w]]>
               (<["Date":=[time_Now_Format w rfc5322date]]>
                  (mail.Header msg)))) with h'.
    fold m'.
    rewrite (M_eta (headToAddy w _ "To")), HoTo, bind_Done.
    rewrite (M_eta (headToAddy w _ "Cc")), HoCc, bind_Done.
    fold (recipients w h').
    replace (recipients w h') with (recipients w (mail.Header msg))
      by (symmetry; apply recipients_stamped).
    destruct (recipients w (mail.Header msg)) as [|r rs] eqn:Er; [done|].
    cbn [length Nat.eqb].
    rewrite Hasm, bind_Done. cbn [mail.Header mail.Body m'].
    destruct (mailBytes cfg w _ (r :: rs)) as [ts [err|m]];
      unfold defer; cbn [trace outcome mbind M_mbind M_bind mret M_mret];
      f_equal; cbn [app]; by rewrite <- ?app_assoc, ?app_nil_r.
  - intros parse ago. unfold mailPoolFile.
    cbn [with_clock os_Open mail_ReadMessage]. unfold call.
    rewrite Hopen, !bind_Done. cbv beta iota.
    rewrite Hread. cbv beta iota zeta.
    rewrite !Get_pooled_date, Hhdr. cbn [String.eqb].
    reflexivity.
Qed.

Lemma mailPoolFile_no_marker_witness :
  mailPoolFile sample.cfg_outfile
    (with_clock (sample.world "m1" sample.plain_message sample.mxs)
       (fun _ _ => Ok 0%Z) (fun _ => 36500%Z))
    "m1"
  = mailPoolFile sample.cfg_outfile
      (sample.world "m1" sample.plain_message sample.mxs) "m1".
Proof.
  apply (mailPoolFile_no_marker sample.cfg_outfile
           (sample.world "m1" sample.plain_message sample.mxs)
           "m1" "m1" sample.plain_message).
  - reflexivity.
  - reflexivity.
  - vm_compute. reflexivity.
  - vm_compute. discriminate.
Defined.

(** The run of a pool file without a pooled-date header and without
    recipients. *)
Example mailPoolFile_lost :
  mailPoolFile sample.cfg
    (sample.world "m1" sample.lost_message sample.mxs) "m1"
  = Run [ OsOpen "m1"; ReadMessage "m1";
          Log LvWarn "" ["No Yamn-Pooled-Date header in message"];
          FileClose "m1" ]
        (Done (true, Some "m1: No email recipients found")).
Proof. vm_compute. reflexivity. Qed.

(** C10, as it is stated, fails: a pool file without a pooled-date header
    and without recipients is not handed to a delivery sink; the run of
    [mailBytes] is no part of the run of [mailPoolFile]. *)
Lemma mailPoolFile_no_recipients_counterexample :
  ¬ (∀ (cfg : config.Config) (w : World) (filename : string) (f : File)
       (msg : mail.Message),
       os_Open w filename = Ok f →
       mail_ReadMessage w f = Ok msg →
       mail.Header msg !! "Yamn-Pooled-Date" = None →
       ∃ pre payload sendTo post,
         trace (mailPoolFile cfg w filename)
         = pre ++ trace (mailBytes cfg w payload sendTo) ++ post).
Proof.
  intros H.
  destruct (H sample.cfg (sample.world "m1" sample.lost_message sample.mxs)
              "m1" "m1" sample.lost_message)
    as (pre & payload & sendTo & post & Ht); [reflexivity..|].
  destruct (mailBytes_trace sample.cfg
              (sample.world "m1" sample.lost_message sample.mxs)
              payload sendTo) as [t Hmb].
  assert (Log LvTrace "Message recipients are: %s" [strings.Join sendTo ","]
          ∈ trace (mailPoolFile sample.cfg
                     (sample.world "m1" sample.lost_message sample.mxs) "m1"))
    as Hin.
  { rewrite Ht, Hmb. apply elem_of_app. right. apply elem_of_app. left.
    by left. }
  rewrite mailPoolFile_lost in Hin. cbn [trace] in Hin.
  repeat (apply elem_of_cons in Hin as [Hin|Hin]; [discriminate|]).
  by apply elem_of_nil in Hin.
Qed.

(** C6, as it is stated, fails: a [Yamn-Pooled-Date] header that is
    present with an empty value does not parse, and the pool file is
    mailed as if it had no such header. *)
Lemma mailPoolFile_empty_marker_counterexample :
  ¬ (∀ (cfg : config.Config) (w : World) (filename : string) (f : File)
       (msg : mail.Message) (v : string) (vs : list string) (e : error),
       os_Open w filename = Ok f →
       mail_ReadMessage w f = Ok msg →
       mail.Header msg !! "Yamn-Pooled-Date" = Some (v :: vs) →
       time_Parse w shortdate v = Err e →
       (∃ err, outcome (mailPoolFile cfg w filename) = Done (false, Some err))
       ∧ Forall (fun ev => delivery_event ev = false)
           (trace (mailPoolFile cfg w filename))).
Proof.
  intros H.
  destruct (H sample.cfg_outfile
              (sample.world "m1" sample.empty_marker_message sample.mxs)
              "m1" "m1" sample.empty_marker_message "" []
              "parsing time: cannot parse ")
    as [[err Herr] _]; [reflexivity|reflexivity|by vm_compute|reflexivity|].
  rewrite mailPoolFile_empty_marker in Herr. discriminate.
Qed.

(** ** The SMTP relay *)

(** Properties of all events of a computation, by its structure. *)

Section Events.
Context (P : Event → Prop).

Lemma all_ret {A} (a : A) : all_events P (mret a : M A).
Proof. constructor. Qed.

Lemma all_panic {A} msg : all_events P (panic msg : M A).
Proof. constructor. Qed.

Lemma all_call {A} e (r : A) : P e → all_events P (call e r).
Proof. by repeat constructor. Qed.

Lemma all_log lvl format args :
  P (Log lvl format args) → all_events P (log lvl format args).
Proof. apply all_call. Qed.

Lemma all_bind {A B} (m : M A) (f : A → M B) :
  all_events P m → (∀ a, all_events P (f a)) → all_events P (m ≫= f).
Proof.
  intros Hm Hf. unfold all_events. rewrite trace_bind.
  apply Forall_app. split; [done|].
  destruct (outcome m); [apply Hf|constructor].
Qed.

Lemma all_defer {A} e (m : M A) :
  P e → all_events P m → all_events P (defer e m).
Proof. intros He Hm. apply Forall_app. by repeat constructor. Qed.

Lemma all_deref {A} (p : option A) : all_events P (deref p).
Proof. destruct p; constructor. Qed.

End Events.

Ltac all_events_step :=
  first
    [ apply all_ret | apply all_panic | apply all_deref
    | apply all_log; reflexivity | apply all_call; reflexivity
    | apply all_defer; [reflexivity|]
    | apply all_bind; [|intros ?] ].

Ltac all_events_tac :=
  repeat first [ all_events_step | progress cbv beta zeta | case_match ].

Lemma mxLookup_events cfg w email :
  all_events (fun e => resolver_event e = true) (mxLookup cfg w email).
Proof. unfold mxLookup. all_events_tac. Qed.

Lemma mxLookup_returns cfg w email :
  ∃ r, outcome (mxLookup cfg w email) = Done r.
Proof.
  unfold mxLookup. destruct (splitEmailAddress email) as [e [err|]]; [by eexists|].
  destruct (strings.HasSuffix _ _); [by eexists|].
  unfold call. rewrite bind_Done. cbv beta iota zeta.
  destruct (net_LookupMX w _); [|by eexists].
  destruct (String.eqb _ _); by eexists.
Qed.

Lemma smtpRelay_endpoint_events cfg w sendTo useTor :
  all_events (fun e => resolver_event e = true)
    (smtpRelay_endpoint cfg w sendTo useTor).
Proof.
  unfold smtpRelay_endpoint.
  destruct sendTo as [|rcpt [|]]; try apply all_ret.
  destruct (_ && _); [|apply all_ret].
  apply all_bind; [by apply all_log|intros _].
  apply all_bind; [apply mxLookup_events|intros [mx [e|]]]; all_events_tac.
Qed.

Lemma smtpRelay_endpoint_returns cfg w sendTo useTor :
  ∃ r, outcome (smtpRelay_endpoint cfg w sendTo useTor) = Done r.
Proof.
  unfold smtpRelay_endpoint.
  destruct sendTo as [|rcpt [|]]; try by eexists.
  destruct (_ && _); [|by eexists].
  unfold log, call. rewrite bind_Done.
  destruct (mxLookup_returns cfg w rcpt) as [[mx err] Hr].
  rewrite (M_eta (mxLookup cfg w rcpt)), Hr, bind_Done.
  destruct err; by eexists.
Qed.

Lemma shouldUseTor_nil cfg address :
  config.Tor cfg = None → shouldUseTor cfg address = false.
Proof. intros H. unfold shouldUseTor. by rewrite H. Qed.

(** C9: without a Tor section in the configuration every call of
    [smtpRelay] panics on the nil pointer when it reads [cfg.Tor.Timeout].
    No recipient asks for Tor then, so the transport would be direct; the
    panic comes before any connection is opened: the events before it are
    lines of the log and, at most, the MX query. *)
Theorem smtpRelay_nil_tor (cfg : config.Config) (w : World)
    (payload : string) (sendTo : list string) :
  config.Tor cfg = None →
  outcome (smtpRelay cfg w payload sendTo) = Panic nil_dereference
  ∧ Forall (fun ev => connection_event ev = false)
      (trace (smtpRelay cfg w payload sendTo))
  ∧ Forall (fun ev => resolver_event ev = true)
      (trace (smtpRelay cfg w payload sendTo))
  ∧ existsb (shouldUseTor cfg) sendTo = false.
Proof.
  intros Htor.
  assert (existsb (shouldUseTor cfg) sendTo = false) as Huse.
  { induction sendTo as [|a l IH]; [done|]. cbn. by rewrite shouldUseTor_nil. }
  assert (outcome (smtpRelay cfg w payload sendTo) = Panic nil_dereference
          ∧ Forall (fun ev => resolver_event ev = true)
              (trace (smtpRelay cfg w payload sendTo))) as [Ho Ht].
  { unfold smtpRelay. rewrite Huse. cbv zeta.
    destruct (smtpRelay_endpoint_returns cfg w sendTo false) as [[relay port] Hr].
    pose proof (smtpRelay_endpoint_events cfg w sendTo false) as He.
    rewrite (M_eta (smtpRelay_endpoint cfg w sendTo false)), Hr, bind_Done.
    rewrite Htor. cbn [deref]. unfold panic. rewrite bind_Panic.
    cbn [trace outcome app]. by rewrite app_nil_r. }
  repeat split; try done.
  eapply Forall_impl; [exact Ht|]. by intros [].
Qed.





Lemma bind_call {A B} (e : Event) (r : A) (f : A → M B) :
  call e r ≫= f = Run (e :: trace (f r)) (outcome (f r)).
Proof. reflexivity. Qed.







Example smtpRelay_direct :
  smtpRelay sample.cfg
    (sample.world "m1" sample.plain_message sample.mxs)
    "payload" ["bob@example.com"]
  = Run [ Log LvTrace "DNS lookup of MX record for %s" ["bob@example.com"];
          LookupMX "example.com";
          Log LvTrace "DNS lookup: Hostname=%s, MX=%s"
            ["example.com"; "mx1.example.com."];
          Log LvTrace "Doing direct relay for %s to %s:25"
            ["bob@example.com"; "mx1.example.com."];
          DialTimeout "tcp" "mx1.example.com.:25" 30000000000;
          SmtpNewClient "mx1.example.com.:25" "mx1.example.com.";
          SmtpExtension "STARTTLS"; SmtpStartTLS true;
          SmtpExtension "AUTH";
          SmtpMail "mix@remailer.example"; SmtpRcpt "bob@example.com";
          SmtpData; DataWrite "payload"; DataClose;
          Log LvTrace "Email sent directly to %s" ["mx1.example.com.:25"];
          SmtpQuit ]
        (Done None).
Proof. vm_compute. reflexivity. Qed.

(** To a relay that is a hidden service, with [DisableTLSOnion]: the
    server offers STARTTLS and there is no upgrade. *)
Example smtpRelay_onion_relay :
  smtpRelay sample.cfg_onion_relay
    (sample.world "m1" sample.plain_message sample.mxs)
    "payload" ["bob@example.com"]
  = Run [ SocksDial "127.0.0.1:9050" 30000000000 "tcp"
            "relayabcdefghijk.onion:25";
          Log LvTrace "Connected to %s via Tor" ["relayabcdefghijk.onion:25"];
          SmtpNewClient "relayabcdefghijk.onion:25" "relayabcdefghijk.onion";
          SmtpExtension "STARTTLS";
          SmtpExtension "AUTH";
          SmtpMail "mix@remailer.example"; SmtpRcpt "bob@example.com";
          SmtpData; DataWrite "payload"; DataClose;
          Log LvTrace "Email sent via Tor to %s" ["relayabcdefghijk.onion:25"];
          SmtpQuit ]
        (Done None).
Proof. vm_compute. reflexivity. Qed.

Example smtpRelay_no_tor_section :
  smtpRelay sample.cfg_no_tor
    (sample.world "m1" sample.plain_message sample.mxs)
    "payload" ["bob@example.com"]
  = Run [ Log LvTrace "DNS lookup of MX record for %s" ["bob@example.com"];
          LookupMX "example.com";
          Log LvTrace "DNS lookup: Hostname=%s, MX=%s"
            ["example.com"; "mx1.example.com."];
          Log LvTrace "Doing direct relay for %s to %s:25"
            ["bob@example.com"; "mx1.example.com."] ]
        (Panic nil_dereference).
Proof. vm_compute. reflexivity. Qed.

Lemma smtpRelay_nil_tor_witness :
  outcome (smtpRelay sample.cfg_no_tor
             (sample.world "m1" sample.plain_message sample.mxs)
             "payload" ["bob@example.com"])
  = Panic nil_dereference.
Proof.
  apply (smtpRelay_nil_tor sample.cfg_no_tor
           (sample.world "m1" sample.plain_message sample.mxs)
           "payload" ["bob@example.com"]).
  reflexivity.
Defined.


(** ** Reading a message *)

Section Reader.

Import reader.

Lemma cut_line_Some s l rest :
  cut_line s = Some (l, rest) →
  String.length s = S (String.length l + String.length rest)
  ∧ mail.mem_byte "010" l = false.
Proof.
  revert l. induction s as [|a s IH]; intros l; [done|]. cbn [cut_line].
  destruct (Ascii.eqb a "010") eqn:Ea.
  - intros [= <- <-]. by cbn.
  - destruct (cut_line s) as [[l' rest']|]; [|done]. intros [= <- <-].
    destruct (IH l' eq_refl) as [Hlen Hlf]. cbn [String.length mail.mem_byte].
    rewrite Ea, Hlf. split; [lia|done].
Qed.

Lemma cut_line_None s : cut_line s = None → mail.mem_byte "010" s = false.
Proof.
  induction s as [|a s IH]; [done|]. cbn [cut_line mail.mem_byte].
  destruct (Ascii.eqb a "010"); [done|].
  destruct (cut_line s) as [[l' rest']|]; [done|]. intros _. by rewrite IH.
Qed.

Lemma drop_cr_length s : (String.length (drop_cr s) ≤ String.length s)%nat.
Proof.
  induction s as [|a s IH]; [done|]. cbn [drop_cr].
  destruct s as [|b s]; [destruct (Ascii.eqb a CR); cbn; lia|].
  cbn [String.length] in *. lia.
Qed.

Lemma drop_cr_mem c s :
  mail.mem_byte c s = false → mail.mem_byte c (drop_cr s) = false.
Proof.
  induction s as [|a s IH]; [done|]. cbn [mail.mem_byte].
  intros [Ha Hs]%orb_false_elim. cbn [drop_cr].
  destruct s as [|b s]; [by destruct (Ascii.eqb a CR); cbn; rewrite ?Ha|].
  cbn [mail.mem_byte]. rewrite Ha. by apply IH.
Qed.

Lemma readLine_Some s l rest :
  readLine s = Some (l, rest) →
  (String.length rest < String.length s)%nat
  ∧ mail.mem_byte "010" l = false.
Proof.
  unfold readLine. destruct s as [|a s]; [done|].
  destruct (cut_line (String a s)) as [[l' rest']|] eqn:E.
  - intros [= <- <-]. apply cut_line_Some in E as [Hlen Hlf].
    split; [lia|]. by apply drop_cr_mem.
  - intros [= <- <-]. split; [cbn; lia|]. by apply cut_line_None.
Qed.

Lemma TrimLeft_length s : (String.length (TrimLeft s) ≤ String.length s)%nat.
Proof.
  induction s as [|a s IH]; [done|]. cbn [TrimLeft].
  destruct (is_blank a); cbn [String.length]; lia.
Qed.

Lemma TrimLeft_length_blank s :
  starts_blank s = true → (String.length (TrimLeft s) < String.length s)%nat.
Proof.
  destruct s as [|a s]; [done|]. cbn. intros ->.
  pose proof (TrimLeft_length s). lia.
Qed.

Lemma TrimLeft_mem c s :
  mail.mem_byte c s = false → mail.mem_byte c (TrimLeft s) = false.
Proof.
  induction s as [|a s IH]; [done|]. cbn [mail.mem_byte TrimLeft].
  intros [Ha Hs]%orb_false_elim. destruct (is_blank a); [by apply IH|].
  cbn [mail.mem_byte]. by rewrite Ha, Hs.
Qed.

Lemma TrimRight_mem c s :
  mail.mem_byte c s = false → mail.mem_byte c (TrimRight s) = false.
Proof.
  induction s as [|a s IH]; [done|]. cbn [mail.mem_byte TrimRight].
  intros [Ha Hs]%orb_false_elim. specialize (IH Hs).
  destruct (TrimRight s) eqn:E.
  - destruct (is_blank a); [done|]. cbn. by rewrite Ha.
  - cbn [mail.mem_byte] in *. by rewrite Ha, IH.
Qed.

Lemma trim_mem c s : mail.mem_byte c s = false → mail.mem_byte c (trim s) = false.
Proof. intros H. by apply TrimRight_mem, TrimLeft_mem. Qed.

Lemma TrimLeft_starts s : starts_blank (TrimLeft s) = false.
Proof.
  induction s as [|a s IH]; [done|]. cbn [TrimLeft].
  destruct (is_blank a) eqn:E; [done|]. by cbn.
Qed.

Lemma TrimLeft_idem s : TrimLeft (TrimLeft s) = TrimLeft s.
Proof.
  pose proof (TrimLeft_starts s) as H. destruct (TrimLeft s) as [|a t]; [done|].
  cbn in *. by rewrite H.
Qed.

Lemma mem_byte_app c s t :
  mail.mem_byte c (s +:+ t) = mail.mem_byte c s || mail.mem_byte c t.
Proof.
  induction s as [|a s IH]; [done|].
  rewrite append_cons. cbn [mail.mem_byte]. rewrite IH. by rewrite orb_assoc.
Qed.

(** The continuation loop does not run out of fuel above the length of
    the input; it leaves an input that does not start with a blank, and
    adds no line feed. *)
Lemma continuation_spec fuel buf s kv rest :
  (String.length s < fuel)%nat →
  continuation fuel buf s = (kv, rest) →
  (String.length rest ≤ String.length s)%nat
  ∧ starts_blank rest = false
  ∧ (mail.mem_byte "010" buf = false → mail.mem_byte "010" kv = false)
  ∧ ∃ t, kv = buf +:+ t.
Proof.
  revert buf s. induction fuel as [|fuel IH]; intros buf s Hfuel; [lia|].
  cbn [continuation]. destruct (starts_blank s) eqn:Hs.
  2:{ intros [= <- <-]. split; [lia|]. split; [done|]. split; [done|].
      exists "". by rewrite append_nil_r. }
  pose proof (TrimLeft_length_blank s Hs) as Hlen.
  destruct (readLine (TrimLeft s)) as [[l rest']|] eqn:Hl.
  2:{ intros [= <- <-]. split; [cbn; lia|]. split; [done|]. split; [done|].
      exists "". by rewrite append_nil_r. }
  apply readLine_Some in Hl as [Hlen' Hlf].
  intros Hc. apply IH in Hc as (H1 & H2 & H3 & [t ->]); [|lia].
  split; [lia|]. split; [done|]. split.
  - intros Hbuf. apply H3. rewrite !mem_byte_app, Hbuf. cbn.
    by apply trim_mem.
  - exists (" " +:+ trim l +:+ t). by rewrite !append_assoc.
Qed.

Lemma ReadContinuedLine_spec s kv rest :
  ReadContinuedLine s = Some (kv, rest) →
  (String.length rest < String.length s)%nat
  ∧ mail.mem_byte "010" kv = false
  ∧ (kv ≠ "" → starts_blank rest = false)
  ∧ (starts_blank s = false → starts_blank kv = false).
Proof.
  unfold ReadContinuedLine.
  destruct (readLine s) as [[l rest']|] eqn:Hl; [|done].
  pose proof Hl as Hl'. apply readLine_Some in Hl' as [Hlen Hlf].
  destruct (String.eqb_spec l "") as [->|Hne].
  { intros [= <- <-]. by repeat split. }
  destruct (continuation _ _ _) as [kv' rest''] eqn:Hc. intros [= <- <-].
  apply continuation_spec in Hc as (H1 & H2 & H3 & [t ->]); [|lia].
  split; [lia|]. split; [by apply H3, trim_mem|]. split; [done|].
  intros Hs.
  assert (starts_blank l = false) as Hsl.
  { unfold readLine in Hl. destruct s as [|a s]; [done|].
    destruct (cut_line (String a s)) as [[l0 r0]|] eqn:E.
    - injection Hl as <- <-. cbn [cut_line] in E.
      destruct (Ascii.eqb a "010"); [by injection E as <- <-|].
      destruct (cut_line s) as [[l1 r1]|]; [|done]. injection E as <- <-.
      cbn [drop_cr]. cbn in Hs. destruct l1; [|done].
      by destruct (Ascii.eqb a CR).
    - by injection Hl as <- <-. }
  unfold trim. destruct l as [|a l]; [done|]. cbn in Hsl. cbn [TrimLeft].
  rewrite Hsl. cbn [TrimRight]. destruct (TrimRight l); cbn; by rewrite ?Hsl.
Qed.

(** Above the length of the input the loop of [readHeader] has a
    result. *)
Lemma readHeader_loop_total fuel m s :
  (String.length s < fuel)%nat → is_Some (readHeader_loop fuel m s).
Proof.
  revert m s. induction fuel as [|fuel IH]; intros m s Hfuel; [lia|].
  cbn [readHeader_loop].
  destruct (ReadContinuedLine s) as [[kv rest]|] eqn:Hr; [|by eexists].
  apply ReadContinuedLine_spec in Hr as (Hlen & _).
  destruct (String.eqb kv ""); [by eexists|].
  destruct (cut_colon kv) as [[k v]|]; [|by eexists]. cbv zeta.
  destruct (String.eqb _ ""); apply IH; lia.
Qed.

Lemma canonicalize_cons upper c s :
  mail.canonicalize upper (String c s)
  = String (canon_byte upper c)
      (mail.canonicalize (Ascii.eqb (canon_byte upper c) "-") s).
Proof. reflexivity. Qed.

Lemma canon_byte_valid upper c :
  mail.validHeaderFieldByte c = true →
  mail.validHeaderFieldByte (canon_byte upper c) = true.
Proof.
  revert c. destruct upper; intros [[] [] [] [] [] [] [] []];
    vm_compute; congruence.
Qed.

Lemma canon_byte_idem upper c :
  canon_byte upper (canon_byte upper c) = canon_byte upper c.
Proof.
  revert c. destruct upper; intros [[] [] [] [] [] [] [] []]; reflexivity.
Qed.

Lemma canonicalize_valid upper s :
  mail.all_bytes mail.validHeaderFieldByte s = true →
  mail.all_bytes mail.validHeaderFieldByte (mail.canonicalize upper s) = true.
Proof.
  revert upper. induction s as [|a s IH]; intros upper; [done|].
  rewrite canonicalize_cons. cbn [mail.all_bytes].
  intros [Ha Hs]%andb_prop. by rewrite (canon_byte_valid _ _ Ha), IH.
Qed.

Lemma canonicalize_idem upper s :
  mail.canonicalize upper (mail.canonicalize upper s) = mail.canonicalize upper s.
Proof.
  revert upper. induction s as [|a s IH]; intros upper; [done|].
  rewrite !canonicalize_cons, canon_byte_idem. by rewrite IH.
Qed.

(** [CanonicalMIMEHeaderKey] is idempotent. *)
Lemma CanonicalMIMEHeaderKey_idem k :
  mail.CanonicalMIMEHeaderKey (mail.CanonicalMIMEHeaderKey k)
  = mail.CanonicalMIMEHeaderKey k.
Proof.
  unfold mail.CanonicalMIMEHeaderKey.
  destruct (mail.all_bytes mail.validHeaderFieldByte k) eqn:E.
  - by rewrite (canonicalize_valid true k E), canonicalize_idem.
  - by rewrite E.
Qed.

Lemma valid_not_mem c s :
  mail.validHeaderFieldByte c = false →
  mail.all_bytes mail.validHeaderFieldByte s = true →
  mail.mem_byte c s = false.
Proof.
  intros Hc. induction s as [|a s IH]; [done|]. cbn [mail.all_bytes mail.mem_byte].
  intros [Ha Hs]%andb_prop. rewrite (IH Hs), orb_false_r.
  destruct (Ascii.eqb_spec a c) as [->|]; [congruence|done].
Qed.

Lemma valid_not_blank s :
  mail.all_bytes mail.validHeaderFieldByte s = true → starts_blank s = false.
Proof.
  destruct s as [|a s]; [done|]. cbn [mail.all_bytes starts_blank].
  intros [Ha _]%andb_prop. revert Ha.
  destruct a as [[] [] [] [] [] [] [] []]; vm_compute; congruence.
Qed.

Lemma cut_colon_Some kv k v :
  cut_colon kv = Some (k, v) →
  kv = k +:+ ":" +:+ v ∧ mail.mem_byte ":" k = false.
Proof.
  revert k. induction kv as [|a kv IH]; intros k; [done|]. cbn [cut_colon].
  destruct (Ascii.eqb_spec a ":") as [->|Ha].
  - by intros [= <- <-].
  - destruct (cut_colon kv) as [[k' v']|]; [|done]. intros [= <- <-].
    destruct (IH k' eq_refl) as [-> Hk]. split; [done|].
    cbn [mail.mem_byte]. rewrite Hk. by destruct (Ascii.eqb_spec a ":").
Qed.

Lemma canonical_parsed_key k :
  k ≠ "" → mail.mem_byte ":" k = false → mail.mem_byte "010" k = false →
  starts_blank k = false →
  mail.CanonicalMIMEHeaderKey k ≠ "" →
  parsed_key (mail.CanonicalMIMEHeaderKey k).
Proof.
  intros Hne Hcolon Hlf Hb Hkey.
  split; [done|]. split; [apply CanonicalMIMEHeaderKey_idem|].
  unfold mail.CanonicalMIMEHeaderKey in *.
  destruct (mail.all_bytes mail.validHeaderFieldByte k) eqn:E; [|done].
  pose proof (canonicalize_valid true k E) as Hv.
  split; [by apply valid_not_mem|]. split; [by apply valid_not_mem|].
  by apply valid_not_blank.
Qed.

Lemma readHeader_loop_parsed fuel m s m' e body :
  readHeader_loop fuel m s = Some (m', e, body) →
  starts_blank s = false → read_header m → read_header m'.
Proof.
  revert m s. induction fuel as [|fuel IH]; intros m s; [done|].
  cbn [readHeader_loop].
  destruct (ReadContinuedLine s) as [[kv rest]|] eqn:Hr; [|by intros [= <- <- <-]].
  apply ReadContinuedLine_spec in Hr as (_ & Hlf & Hrest & Hstart).
  destruct (String.eqb_spec kv "") as [|Hkv]; [by intros [= <- <- <-]|].
  destruct (cut_colon kv) as [[k v]|] eqn:Hcut; [|by intros [= <- <- <-]].
  cbv zeta. apply cut_colon_Some in Hcut as [-> Hcolon].
  rewrite !mem_byte_app in Hlf.
  apply orb_false_elim in Hlf as [Hklf [_ Hvlf]%orb_false_elim].
  destruct (String.eqb_spec (mail.CanonicalMIMEHeaderKey k) "") as [|Hkey].
  { intros Hl Hs Hm. eapply IH; [exact Hl|by apply Hrest|done]. }
  intros Hl Hs Hm. eapply IH; [exact Hl|by apply Hrest|].
  assert (k ≠ "") as Hkne by (by intros ->).
  assert (starts_blank k = false) as Hkb.
  { specialize (Hstart Hs). destruct k; [done|]. by rewrite append_cons in Hstart. }
  pose proof (canonical_parsed_key k Hkne Hcolon Hklf Hkb Hkey) as Hpk.
  intros k' vs. destruct (decide (k' = mail.CanonicalMIMEHeaderKey k)) as [->|Hne].
  - rewrite lookup_insert_eq. intros [= <-]. split; [done|].
    apply Forall_app. split.
    + destruct (m !! mail.CanonicalMIMEHeaderKey k) as [vs|] eqn:E; [|done].
      by apply (Hm _ _ E).
    + repeat constructor; [by apply TrimLeft_mem|apply TrimLeft_idem].
  - rewrite lookup_insert_ne by done. apply Hm.
Qed.

(** Every name and value of a message that [ReadMessage] returns is as
    [parsed_key] and [read_value] say. *)
Lemma ReadMessage_parsed payload msg :
  ReadMessage payload = Some msg → read_header (mail.Header msg).
Proof.
  unfold ReadMessage. destruct (starts_blank payload) eqn:Hs; [done|].
  destruct (readHeader_loop _ _ _) as [[[h e] body]|] eqn:Hl; [|done].
  apply readHeader_loop_parsed in Hl; [|done|by intros k vs; rewrite lookup_empty].
  destruct e; [by intros [= <-]| |done].
  destruct (bool_decide (h = ∅)); [done|]. by intros [= <-].
Qed.

(** [ReadMessage] does not fail for lack of fuel. *)
Lemma ReadMessage_fuel payload :
  is_Some (readHeader_loop (S (String.length payload)) ∅ payload).
Proof. apply readHeader_loop_total. lia. Qed.

End Reader.

(** ** Assembling a message and reading it back *)

Section Roundtrip.

Import reader.

Lemma cut_line_app l rest :
  mail.mem_byte "010" l = false →
  cut_line (l +:+ LF +:+ rest) = Some (l, rest).
Proof.
  induction l as [|a l IH]; [done|]. cbn [mail.mem_byte].
  intros [Ha Hl]%orb_false_elim. rewrite append_cons. cbn [cut_line].
  by rewrite Ha, (IH Hl).
Qed.

Lemma drop_cr_app s t : t ≠ "" → drop_cr (s +:+ t) = s +:+ drop_cr t.
Proof.
  intros Ht. induction s as [|a s IH]; [done|].
  rewrite !append_cons. cbn [drop_cr]. rewrite IH.
  destruct (s +:+ t) eqn:E; [|done].
  destruct s; [by rewrite append_nil_l in E|done].
Qed.

Lemma length_append s t :
  String.length (s +:+ t) = (String.length s + String.length t)%nat.
Proof. induction s as [|a s IH]; [done|]. rewrite append_cons. cbn. by rewrite IH. Qed.

Lemma TrimLeft_id s : starts_blank s = false → TrimLeft s = s.
Proof. destruct s as [|a s]; [done|]. cbn. by intros ->. Qed.

Lemma TrimRight_app s t :
  TrimRight (s +:+ t) =
  if String.eqb (TrimRight t) "" then TrimRight s else s +:+ TrimRight t.
Proof.
  induction s as [|a s IH].
  - cbn [TrimRight]. rewrite !append_nil_l. by destruct (String.eqb_spec (TrimRight t) "").
  - rewrite append_cons. cbn [TrimRight]. rewrite IH.
    destruct (String.eqb_spec (TrimRight t) "") as [E|E]; [done|].
    rewrite append_cons. destruct (s +:+ TrimRight t) eqn:Es; [|done].
    destruct s; [|done]. by rewrite append_nil_l in Es.
Qed.

Lemma cut_colon_app k rest :
  mail.mem_byte ":" k = false →
  cut_colon (k +:+ ":" +:+ rest) = Some (k, rest).
Proof.
  induction k as [|a k IH]; [done|]. cbn [mail.mem_byte].
  intros [Ha Hk]%orb_false_elim. rewrite append_cons. cbn [cut_colon].
  by rewrite Ha, (IH Hk).
Qed.

Lemma starts_blank_app k s :
  k ≠ "" → starts_blank k = false → starts_blank (k +:+ s) = false.
Proof. destruct k; [done|]. by rewrite append_cons. Qed.

Lemma continuation_none fuel buf s :
  starts_blank s = false → continuation fuel buf s = (buf, s).
Proof. destruct fuel; [done|]. cbn [continuation]. by intros ->. Qed.

(** The line that [assemble] writes for a name and its first value. *)
Lemma header_line_facts (h : mail.HeaderT) k :
  parsed_key k → parsed_value (mail.Get h k) →
  header_line h k ≠ ""
  ∧ mail.mem_byte "010" (header_line h k) = false
  ∧ drop_cr (header_line h k) = header_line h k
  ∧ starts_blank (header_line h k) = false
  ∧ trim (header_line h k)
    = k +:+ ":" +:+ (if String.eqb (mail.Get h k) "" then ""
                     else " " +:+ mail.Get h k).
Proof.
  intros (Hne & Hc & Hcolon & Hlf & Hb) (Hvlf & Hl & Hr & Hcr).
  unfold header_line. set (v := mail.Get h k) in *.
  assert (starts_blank (k +:+ ": " +:+ v) = false) as Hstart
    by by apply starts_blank_app.
  repeat split.
  - destruct k; [done|]. by rewrite append_cons.
  - by rewrite !mem_byte_app, Hlf, Hvlf.
  - rewrite drop_cr_app by done.
    change (": " +:+ v) with (":" +:+ (" " +:+ v)).
    rewrite (drop_cr_app ":" (" " +:+ v)) by done.
    destruct v as [|a v]; [done|].
    change (" " +:+ String a v) with (String " " (String a v)) at 1.
    cbn [drop_cr]. cbn [drop_cr] in Hcr. by rewrite Hcr.
  - done.
  - unfold trim. rewrite (TrimLeft_id _ Hstart), TrimRight_app.
    change (": " +:+ v) with (":" +:+ (" " +:+ v)).
    rewrite (TrimRight_app ":" (" " +:+ v)), (TrimRight_app " " v), Hr.
    destruct (String.eqb_spec v "") as [->|Hvne]; [done|].
    destruct v; [done|]. reflexivity.
Qed.

Lemma readLine_app l rest :
  l ≠ "" → mail.mem_byte "010" l = false → drop_cr l = l →
  readLine (l +:+ LF +:+ rest) = Some (l, rest).
Proof.
  intros Hne Hlf Hcr. unfold readLine.
  rewrite (cut_line_app _ _ Hlf), Hcr.
  destruct l; [done|]. by rewrite append_cons.
Qed.

Lemma starts_blank_block (h : mail.HeaderT) keys body :
  Forall (fun k => parsed_key k ∧ parsed_value (mail.Get h k)) keys →
  starts_blank (block (map (header_line h) keys) +:+ LF +:+ body) = false.
Proof.
  destruct keys as [|k keys]; [done|].
  intros [[Hk Hv] _]%Forall_cons. cbn [map block].
  destruct (header_line_facts h k Hk Hv) as (Hne & _ & _ & Hs & _).
  rewrite !append_assoc. by apply starts_blank_app.
Qed.

(** Reading back the header block: every line adds the first value of
    its name. *)
Lemma readHeader_loop_block (h : mail.HeaderT) (keys : list string) body :
  ∀ (fuel : nat) (m : mail.HeaderT),
  (length keys < fuel)%nat →
  NoDup keys →
  Forall (fun k => m !! k = None ∧ parsed_key k ∧ parsed_value (mail.Get h k)) keys →
  ∃ m' : mail.HeaderT,
    readHeader_loop fuel m (block (map (header_line h) keys) +:+ LF +:+ body)
    = Some (m', EmptyLine, body)
    ∧ ∀ k, m' !! k = if decide (k ∈ keys) then Some [mail.Get h k] else m !! k.
Proof.
  induction keys as [|k keys IH]; intros fuel m Hfuel Hnd Hk.
  - destruct fuel; [cbn in Hfuel; lia|]. exists m. split; [done|].
    intros k. by rewrite decide_False by apply not_elem_of_nil.
  - destruct fuel; [cbn in Hfuel; lia|].
    apply NoDup_cons in Hnd as [Hnotin Hnd].
    apply Forall_cons in Hk as [(Hm & Hpk & Hpv) Hk].
    assert (Forall (fun k => parsed_key k ∧ parsed_value (mail.Get h k)) keys)
      as Hk'.
    { eapply Forall_impl; [exact Hk|]. by intros k' (? & ? & ?). }
    destruct (header_line_facts h k Hpk Hpv) as (Hne & Hlf & Hcr & Hs & Htrim).
    cbn [map block readHeader_loop]. unfold ReadContinuedLine.
    rewrite !append_assoc, (readLine_app _ _ Hne Hlf Hcr).
    destruct (String.eqb_spec (header_line h k) ""); [done|].
    rewrite continuation_none by by apply starts_blank_block.
    rewrite Htrim.
    assert (k +:+ ":" +:+ (if (mail.Get h k =? "")%string then ""
                           else " " +:+ mail.Get h k) ≠ "") as Hkv.
    { destruct Hpk as (Hkne & _). destruct k; [done|]. by rewrite append_cons. }
    destruct (String.eqb_spec
                (k +:+ ":" +:+ (if (mail.Get h k =? "")%string then ""
                                else " " +:+ mail.Get h k)) "") as [|_];
      [done|].
    destruct Hpk as (Hkne & Hc & Hcolon & Hklf & Hkb).
    rewrite (cut_colon_app _ _ Hcolon). cbv zeta. rewrite Hc.
    destruct (String.eqb_spec k ""); [done|].
    rewrite Hm. cbn [default app].
    assert (TrimLeft (if (mail.Get h k =? "")%string then ""
                      else " " +:+ mail.Get h k) = mail.Get h k) as ->.
    { destruct Hpv as (_ & Hl & _).
      destruct (String.eqb_spec (mail.Get h k) "") as [->|_]; [done|].
      rewrite append_cons, append_nil_l. cbn [TrimLeft].
      change (is_blank " ") with true. cbn iota. exact Hl. }
    destruct (IH fuel (<[k := [mail.Get h k]]> m)) as (m' & Hm' & Hlook).
    { cbn in Hfuel. lia. }
    { done. }
    { rewrite Forall_forall in Hk |- *. intros k' Hk'0.
      destruct (Hk k' Hk'0) as (? & ? & ?). split; [|done].
      rewrite lookup_insert_ne; [done|]. by intros ->. }
    exists m'. split; [done|]. intros k'. rewrite Hlook.
    destruct (decide (k' = k)) as [->|Hne'].
    + rewrite decide_False by done. rewrite decide_True by left.
      by rewrite lookup_insert_eq.
    + rewrite lookup_insert_ne by done.
      destruct (decide (k' ∈ keys)).
      * by rewrite decide_True by by right.
      * rewrite decide_False; [done|]. by intros [?|?]%elem_of_cons.
Qed.

Lemma length_block lines :
  (length lines ≤ String.length (block lines))%nat.
Proof.
  induction lines as [|l lines IH]; [done|].
  cbn [block length]. rewrite !length_append. cbn. lia.
Qed.

Lemma header_block_block (h : mail.HeaderT) keys :
  header_block h keys
  = block (map (header_line h)
             (base.filter (fun k => strings.HasPrefix k "Yamn-" = false) keys)).
Proof.
  induction keys as [|k keys IH]; [done|].
  cbn [header_block]. rewrite filter_cons.
  destruct (strings.HasPrefix k "Yamn-") eqn:E.
  - by rewrite decide_False by done.
  - rewrite decide_True by done. cbn [map block]. by rewrite IH.
Qed.

#[local] Opaque strings.HasPrefix.

(** Assembling and reading back, for names and first values that are
    read back as they are. *)
Lemma assemble_roundtrip_parsed (w : World) (msg : mail.Message) :
  range_keys w (mail.Header msg) ≡ₚ (map_to_list (mail.Header msg)).*1 →
  (∀ k vs, mail.Header msg !! k = Some vs →
     parsed_key k ∧ parsed_value (hd "" vs)) →
  ∃ payload,
    outcome (assemble w msg) = Done payload
    ∧ payload = header_block (mail.Header msg) (range_keys w (mail.Header msg))
                +:+ LF +:+ mail.Body msg
    ∧ ReadMessage payload
      = Some {| mail.Header := first_value <$> without_internal (mail.Header msg);
                mail.Body := mail.Body msg |}
    ∧ ∀ k, strings.HasPrefix k "Yamn-" = true →
           (first_value <$> without_internal (mail.Header msg)) !! k = None.
Proof.
  intros Hperm Hwf. destruct msg as [h body]. cbn [mail.Header mail.Body] in *.
  exists (header_block h (range_keys w h) +:+ LF +:+ body).
  split; [by rewrite assemble_run|]. split; [done|].
  set (keys := range_keys w h) in *.
  set (keys' := base.filter (fun k => strings.HasPrefix k "Yamn-" = false) keys).
  assert (∀ k, k ∈ keys ↔ is_Some (h !! k)) as Hkeys.
  { intros k. rewrite Hperm, list_elem_of_fmap. split.
    - intros ([k' vs] & -> & Hin%elem_of_map_to_list). by eexists.
    - intros [vs Hvs]. exists (k, vs). split; [done|]. by apply elem_of_map_to_list. }
  assert (∀ k vs, h !! k = Some vs → mail.Get h k = hd "" vs) as Hget.
  { intros k vs Hvs. destruct (Hwf k vs Hvs) as [(_ & Hc & _) _].
    rewrite (Get_lookup h k Hc), Hvs. by destruct vs. }
  assert (Forall (fun k => parsed_key k ∧ parsed_value (mail.Get h k)) keys')
    as Hgood.
  { apply Forall_forall. intros k [_ [vs Hvs]%Hkeys]%list_elem_of_filter.
    rewrite (Hget k vs Hvs). by apply Hwf. }
  assert (NoDup keys') as Hnd.
  { apply NoDup_filter. rewrite Hperm. apply NoDup_fst_map_to_list. }
  split.
  - unfold ReadMessage. rewrite header_block_block. fold keys'.
    rewrite (starts_blank_block h keys' body Hgood).
    destruct (readHeader_loop_block h keys' body
                (S (String.length (block (map (header_line h) keys')
                                   +:+ LF +:+ body))) ∅)
      as (m' & -> & Hm').
    { rewrite !length_append.
      pose proof (length_block (map (header_line h) keys')) as Hlen.
      rewrite length_map in Hlen. lia. }
    { done. }
    { eapply Forall_impl; [exact Hgood|]. intros k [? ?]. by rewrite lookup_empty. }
    do 2 f_equal. apply map_eq. intros k. rewrite Hm', lookup_fmap.
    unfold without_internal. rewrite map_lookup_filter. cbn [fst].
    destruct (decide (k ∈ keys')) as [Hin|Hnin].
    + apply list_elem_of_filter in Hin as [Hp [vs Hvs]%Hkeys].
      rewrite Hvs. cbn. rewrite option_guard_True by done.
      cbn. unfold first_value. by rewrite (Hget k vs Hvs).
    + destruct (h !! k) as [vs|] eqn:Hvs; [|done]. cbn.
      destruct (strings.HasPrefix k "Yamn-") eqn:Hp.
      * by rewrite option_guard_False by done.
      * destruct Hnin. apply list_elem_of_filter. split; [done|].
        apply Hkeys. by eexists.
  - intros k Hk. rewrite lookup_fmap. unfold without_internal.
    rewrite map_lookup_filter. destruct (h !! k); [|done]. cbn.
    rewrite option_guard_False; [done|]. cbn. by rewrite Hk.
Qed.

#[local] Transparent strings.HasPrefix.

(** C7, amended: for a message [msg] that [mail.ReadMessage] has parsed,
    whose names the run time ranges over in any order and whose first
    values end neither with a blank nor with a carriage return,
    [assemble] returns one line [Name: value] for every name that does not
    start with [Yamn-], with the first value of the name only, then an
    empty line, then the body.  Reading the payload back gives the body
    and, for every such name, its first value; the further values of a
    name with several values are not in the payload.  No name that starts
    with [Yamn-] is in the header read back. *)
Theorem assemble_roundtrip (w : World) (input : string) (msg : mail.Message) :
  ReadMessage input = Some msg →
  range_keys w (mail.Header msg) ≡ₚ (map_to_list (mail.Header msg)).*1 →
  (∀ k vs, mail.Header msg !! k = Some vs →
     TrimRight (hd "" vs) = hd "" vs ∧ drop_cr (hd "" vs) = hd "" vs) →
  ∃ payload,
    outcome (assemble w msg) = Done payload
    ∧ payload = header_block (mail.Header msg) (range_keys w (mail.Header msg))
                +:+ LF +:+ mail.Body msg
    ∧ ReadMessage payload
      = Some {| mail.Header := first_value <$> without_internal (mail.Header msg);
                mail.Body := mail.Body msg |}
    ∧ ∀ k, strings.HasPrefix k "Yamn-" = true →
           (first_value <$> without_internal (mail.Header msg)) !! k = None.
Proof.
  intros Hread Hperm Hends. apply assemble_roundtrip_parsed; [done|].
  intros k vs Hvs. destruct (ReadMessage_parsed input msg Hread k vs Hvs)
    as [Hk Hread_vs].
  destruct (Hends k vs Hvs) as [Hr Hcr]. split; [done|].
  destruct vs as [|v vs]; [done|]. apply Forall_cons in Hread_vs as [[Hlf Hl] _].
  by repeat split.
Qed.

(** A header with two values: only the first is assembled. *)
Example ReadMessage_relayed_input :
  ReadMessage sample.relayed_input = Some sample.relayed_message.
Proof. vm_compute. reflexivity. Qed.

Example assemble_relayed :
  assemble (sample.world "m1" sample.relayed_message sample.mxs)
    sample.relayed_message
  = Run [] (Done ("Received: from a" +:+ LF +:+ LF +:+ "body" +:+ LF)).
Proof. vm_compute. reflexivity. Qed.

Example ReadMessage_relayed :
  ReadMessage ("Received: from a" +:+ LF +:+ LF +:+ "body" +:+ LF)
  = Some {| mail.Header := {[ "Received" := ["from a"] ]};
            mail.Body := "body" +:+ LF |}.
Proof. vm_compute. reflexivity. Qed.

(** The reader keeps both values of a repeated header, canonicalizes the
    names and joins continuation lines. *)
Example ReadMessage_two_values :
  ReadMessage
    ("received: from a" +:+ LF +:+ "Received:  from b" +:+ LF
     +:+ "Subject: a" +:+ LF +:+ "  folded line " +:+ LF +:+ LF +:+ "body" +:+ LF)
  = Some {| mail.Header :=
              {[ "Received" := ["from a"; "from b"];
                 "Subject" := ["a folded line"] ]};
            mail.Body := "body" +:+ LF |}.
Proof. vm_compute. reflexivity. Qed.

Example ReadMessage_no_empty_line :
  ReadMessage ("Subject: a" +:+ LF)
  = Some {| mail.Header := {[ "Subject" := ["a"] ]}; mail.Body := "" |}.
Proof. vm_compute. reflexivity. Qed.

Example ReadMessage_no_colon :
  ReadMessage ("Subject a" +:+ LF +:+ LF +:+ "body") = None.
Proof. vm_compute. reflexivity. Qed.

(** A value that ends with a carriage return loses it on the way. *)
Example ReadMessage_carriage_return :
  ReadMessage ("Subject: hi" +:+ String CR (String CR LF) +:+ LF +:+ "body")
  = Some {| mail.Header := {[ "Subject" := ["hi" +:+ String CR ""] ]};
            mail.Body := "body" |}
  ∧ ReadMessage ("Subject: " +:+ ("hi" +:+ String CR "") +:+ LF +:+ LF +:+ "body")
    = Some {| mail.Header := {[ "Subject" := ["hi"] ]}; mail.Body := "body" |}.
Proof. split; vm_compute; reflexivity. Qed.

(** C7, as it is stated, fails: a parsed message with a header that has
    two values is not read back from its payload; the payload has the
    first value only. *)
Lemma assemble_roundtrip_counterexample :
  ¬ (∀ (w : World) (input : string) (msg : mail.Message),
       ReadMessage input = Some msg →
       range_keys w (mail.Header msg) ≡ₚ (map_to_list (mail.Header msg)).*1 →
       ∃ payload,
         outcome (assemble w msg) = Done payload
         ∧ ReadMessage payload
           = Some {| mail.Header := without_internal (mail.Header msg);
                     mail.Body := mail.Body msg |}).
Proof.
  intros H.
  destruct (H (sample.world "m1" sample.relayed_message sample.mxs)
              sample.relayed_input sample.relayed_message)
    as (payload & Hp & Hr).
  - exact ReadMessage_relayed_input.
  - reflexivity.
  - rewrite assemble_relayed in Hp. injection Hp as <-.
    rewrite ReadMessage_relayed in Hr.
    apply (f_equal (fun o => o ≫= (fun m => mail.Header m !! "Received"))) in Hr.
    vm_compute in Hr. discriminate.
Qed.

Lemma ends_plain :
  ∀ k vs, mail.Header sample.plain_message !! k = Some vs →
          TrimRight (hd "" vs) = hd "" vs ∧ drop_cr (hd "" vs) = hd "" vs.
Proof.
  intros k vs. unfold sample.plain_message, sample.message.
  cbn [mail.Header list_to_map foldr uncurry fst snd].
  intros [[<- <-]|[_ [[<- <-]|[_ H]]%lookup_insert_Some]]%lookup_insert_Some;
    [| |by rewrite lookup_empty in H]; by split.
Qed.

Lemma assemble_roundtrip_witness :
  ∃ payload,
    outcome (assemble (sample.world "m1" sample.plain_message sample.mxs)
               sample.plain_message) = Done payload
    ∧ payload
      = header_block (mail.Header sample.plain_message)
          (range_keys (sample.world "m1" sample.plain_message sample.mxs)
             (mail.Header sample.plain_message))
        +:+ LF +:+ mail.Body sample.plain_message
    ∧ ReadMessage payload
      = Some {| mail.Header :=
                  first_value <$> without_internal (mail.Header sample.plain_message);
                mail.Body := mail.Body sample.plain_message |}
    ∧ ∀ k, strings.HasPrefix k "Yamn-" = true →
           (first_value <$> without_internal (mail.Header sample.plain_message))
             !! k = None.
Proof.
  apply (assemble_roundtrip (sample.world "m1" sample.plain_message sample.mxs)
           sample.plain_input sample.plain_message).
  - vm_compute. reflexivity.
  - reflexivity.
  - exact ends_plain.
Defined.

End Roundtrip.

(** ** Further properties of the delivery code *)

(** *** Addresses and the choice of the relay *)

Lemma CountByte_app s t c :
  strings.CountByte (s +:+ t) c = (strings.CountByte s c + strings.CountByte t c)%nat.
Proof.
  induction s as [|a s IH]; [done|]. rewrite append_cons. cbn [strings.CountByte].
  rewrite IH. lia.
Qed.

Lemma split_from_byte_app n d c :
  strings.CountByte n c = 0 →
  strings.split_from (n +:+ String c "" +:+ d) (String c "") 0
  = n :: strings.split_from d (String c "") 0.
Proof.
  induction n as [|a n IH]; cbn [strings.CountByte].
  - intros _. rewrite append_nil_l, append_cons, append_nil_l, split_from_byte.
    by rewrite Ascii.eqb_refl.
  - destruct (Ascii.eqb a c) eqn:E; [done|]. intros Hn.
    rewrite append_cons, split_from_byte, E, (IH Hn). reflexivity.
Qed.

Lemma split_from_byte_none d c :
  strings.CountByte d c = 0 → strings.split_from d (String c "") 0 = [d].
Proof.
  induction d as [|a d IH]; [done|]. cbn [strings.CountByte].
  destruct (Ascii.eqb a c) eqn:E; [done|]. intros Hd.
  by rewrite split_from_byte, E, (IH Hd).
Qed.

(** X1: an address built from a local part and a domain
    that hold no [@] splits back into these two parts, without an error.
    Either part may be empty: the address [@] alone is accepted, with an
    empty name and an empty domain. *)
Theorem splitEmailAddress_join (n d : string) :
  strings.CountByte n "@" = 0 →
  strings.CountByte d "@" = 0 →
  splitEmailAddress (n +:+ "@" +:+ d) = ({| name := n; domain := d |}, None).
Proof.
  intros Hn Hd. unfold splitEmailAddress.
  rewrite Contains_byte, !CountByte_app, Hn, Hd. cbn [negb Nat.eqb Nat.add strings.CountByte Ascii.eqb].
  unfold strings.Split.
  by rewrite (split_from_byte_app n d "@" Hn), (split_from_byte_none d "@" Hd).
Qed.

Lemma splitEmailAddress_join_witness :
  splitEmailAddress ("" +:+ "@" +:+ "") = ({| name := ""; domain := "" |}, None).
Proof. apply (splitEmailAddress_join "" ""); reflexivity. Defined.

(** X2: for an address that does not hold exactly one [@],
    [mxLookup] returns the empty relay and the error of
    [splitEmailAddress]; it logs nothing and asks no DNS. *)
Theorem mxLookup_rejects (cfg : config.Config) (w : World) (email : string) :
  strings.CountByte email "@" ≠ 1 →
  ∃ e, snd (splitEmailAddress email) = Some e
       ∧ mxLookup cfg w email = Run [] (Done ("", Some e)).
Proof.
  intros Hn. unfold mxLookup.
  pose proof (splitEmailAddress_cases email) as H.
  destruct (splitEmailAddress email) as [parts [e|]].
  - by exists e.
  - by destruct H as [H _].
Qed.

Lemma mxLookup_rejects_witness :
  ∃ e, snd (splitEmailAddress "a@b@c") = Some e
       ∧ mxLookup sample.cfg (sample.world "m1" sample.plain_message sample.mxs)
           "a@b@c" = Run [] (Done ("", Some e)).
Proof.
  apply (mxLookup_rejects sample.cfg
           (sample.world "m1" sample.plain_message sample.mxs) "a@b@c").
  vm_compute. lia.
Defined.

Lemma mxLookup_range_origin cfg mxRecords :
  mxLookup_range cfg mxRecords = ""
  ∨ ∃ mx, mx ∈ mxRecords ∧ mxLookup_range cfg mxRecords = Host mx
          ∧ mx_skipped cfg mx = false.
Proof.
  rewrite mxLookup_range_find.
  destruct (find _ mxRecords) as [mx|] eqn:Hfind; [|by left].
  apply find_some in Hfind as [Hin Hs]. right. exists mx.
  split; [by apply list_elem_of_In|]. split; [done|].
  by apply negb_true_iff.
Qed.

(** X3: a relay that [mxLookup] returns without an error is
    the domain of the address, or the host of an MX record that DNS listed
    for this domain and that the onion test did not skip. *)
Theorem mxLookup_relay_origin (cfg : config.Config) (w : World)
    (email relay : string) :
  outcome (mxLookup cfg w email) = Done (relay, None) →
  relay = domain (fst (splitEmailAddress email))
  ∨ ∃ mxRecords mx,
      net_LookupMX w (domain (fst (splitEmailAddress email))) = Ok mxRecords
      ∧ mx ∈ mxRecords ∧ relay = Host mx ∧ mx_skipped cfg mx = false.
Proof.
  unfold mxLookup. destruct (splitEmailAddress email) as [e [err|]]; [done|].
  cbn [fst]. destruct (strings.HasSuffix _ _); [by intros [= <-]; left|].
  rewrite bind_call. cbn [outcome].
  destruct (net_LookupMX w (domain e)) as [mxRecords|err] eqn:Hmx;
    [|by intros [= <-]; left].
  cbv zeta.
  destruct (mxLookup_range_origin cfg mxRecords) as [->|(mx & Hin & -> & Hs)].
  - cbn. intros [= <-]. by left.
  - destruct (String.eqb_spec (Host mx) "") as [E|E].
    + cbn. intros [= <-]. by left.
    + cbn. intros [= <-]. right. by exists mxRecords, mx.
Qed.

Lemma mxLookup_relay_origin_witness :
  "mx1.example.com." = domain (fst (splitEmailAddress "bob@example.com"))
  ∨ ∃ mxRecords mx,
      net_LookupMX (sample.world "m1" sample.plain_message sample.mxs)
        (domain (fst (splitEmailAddress "bob@example.com"))) = Ok mxRecords
      ∧ mx ∈ mxRecords ∧ "mx1.example.com." = Host mx
      ∧ mx_skipped sample.cfg mx = false.
Proof.
  apply (mxLookup_relay_origin sample.cfg
           (sample.world "m1" sample.plain_message sample.mxs)
           "bob@example.com" "mx1.example.com.").
  reflexivity.
Defined.

(** X4: [mxLookup] asks DNS at most once, and only for the
    domain of a well-formed address that does not end in [.onion]: the DNS
    events of a run are this one query, or none. *)
Theorem mxLookup_dns_queries (cfg : config.Config) (w : World) (email : string) :
  List.filter dns_event (trace (mxLookup cfg w email))
  = match splitEmailAddress email with
    | (e, None) =>
        if strings.HasSuffix (domain e) ".onion" then []
        else [LookupMX (domain e)]
    | (_, Some _) => []
    end.
Proof.
  unfold mxLookup. destruct (splitEmailAddress email) as [e [err|]]; [done|].
  destruct (strings.HasSuffix _ _); [done|].
  rewrite bind_call. cbn [trace List.filter dns_event]. f_equal.
  destruct (net_LookupMX w (domain e)); [|done]. cbv zeta.
  by destruct (String.eqb _ _).
Qed.

(** X5: with [CustomFrom] off, [parseFrom] returns one
    value, and its address is [OutboundAddy]; the display name is
    [OutboundName], or the name of the first address of a [From] header
    that parses, when this name is not empty. *)
Theorem parseFrom_outbound_address (cfg : config.Config) (w : World)
    (h : mail.HeaderT) :
  config.CustomFrom (config.Mail cfg) = false →
  ∃ display,
    parseFrom cfg w h
    = [display +:+ " <" +:+ config.OutboundAddy (config.Mail cfg) +:+ ">"]
    ∧ (display = config.OutboundName (config.Mail cfg)
       ∨ ∃ from rest,
           mail.AddressList (mail_ParseAddressList w) h "From" = Ok (from :: rest)
           ∧ display = mail.Name from ∧ display ≠ "").
Proof.
  intros Hc. unfold parseFrom, outbound. rewrite Hc.
  destruct (mail.AddressList _ h "From") as [[|from rest]|e];
    try (eexists; split; [reflexivity|by left]).
  destruct (Nat.eqb_spec (String.length (mail.Name from)) 0) as [E|E].
  - eexists; split; [reflexivity|by left].
  - eexists; split; [reflexivity|]. right. exists from, rest.
    split; [done|]. split; [done|]. intros E'. by rewrite E' in E.
Qed.

Lemma parseFrom_outbound_address_witness :
  ∃ display,
    parseFrom sample.cfg sample.w1 (mail.Header sample.plain_message)
    = [display +:+ " <"
       +:+ config.OutboundAddy (config.Mail sample.cfg) +:+ ">"]
    ∧ (display = config.OutboundName (config.Mail sample.cfg)
       ∨ ∃ from rest,
           mail.AddressList (mail_ParseAddressList sample.w1)
             (mail.Header sample.plain_message) "From" = Ok (from :: rest)
           ∧ display = mail.Name from ∧ display ≠ "").
Proof.
  apply (parseFrom_outbound_address sample.cfg sample.w1
           (mail.Header sample.plain_message)).
  reflexivity.
Defined.

(** *** The pool file *)

Lemma mailPoolFile_read cfg w filename f msg :
  os_Open w filename = Ok f →
  mail_ReadMessage w f = Ok msg →
  mailPoolFile cfg w filename
  = let a := age_check cfg w (mail.Header msg) in
    let m := if age_passed a
             then pool_send cfg w filename msg (checked_header a (mail.Header msg))
             else mret (match a with TooOld => true | _ => false end,
                        match a with BadDate e => Some e | _ => None end) in
    Run (OsOpen filename :: ReadMessage f :: age_log cfg filename a
           ++ trace m ++ [FileClose f])
        (outcome m).
Proof.
  intros Hopen Hread. unfold mailPoolFile, call.
  rewrite Hopen, bind_Done. cbv beta iota.
  rewrite Hread, bind_Done. cbv beta iota zeta. unfold age_check.
  destruct (String.eqb (mail.Get (mail.Header msg) "Yamn-Pooled-Date") "").
  { reflexivity. }
  destruct (time_Parse w shortdate _) as [d|e]; [|reflexivity].
  cbv zeta. destruct (daysAgo w d >? _)%Z; [reflexivity|].
  cbn [age_passed checked_header age_log].
  destruct (daysAgo w d >? 0)%Z; reflexivity.
Qed.

Lemma recipients_checked w a h :
  recipients w (checked_header a h) = recipients w h.
Proof.
  destruct a; try done. unfold recipients, addresses, mail.AddressList.
  cbn [checked_header]. rewrite !Get_lookup by done.
  by rewrite !lookup_delete_ne.
Qed.

Lemma pool_send_run cfg w filename msg h :
  ∃ pre,
    Forall (fun ev => delivery_event ev = false) pre
    ∧ pool_send cfg w filename msg h
      = match recipients w h with
        | [] => Run pre (Done (true, Some (filename +:+ ": No email recipients found")))
        | _ :: _ =>
            let payload :=
              header_block (stamped cfg w h) (range_keys w (stamped cfg w h))
              +:+ LF +:+ mail.Body msg in
            let mb := mailBytes cfg w payload (recipients w h) in
            Run (pre
                 ++ trace (assemble w {| mail.Header := stamped cfg w h;
                                         mail.Body := mail.Body msg |})
                 ++ trace mb)
                (match outcome mb with
                 | Done err => Done (false, err)
                 | Panic m => Panic m
                 end)
        end.
Proof.
  set (h' := stamped cfg w h).
  set (m' := {| mail.Header := h'; mail.Body := mail.Body msg |}).
  pose proof (headToAddy_run w h' "To") as [HoTo HtTo].
  pose proof (headToAddy_run w h' "Cc") as [HoCc HtCc].
  pose proof (assemble_run w m') as Hasm. cbv zeta in Hasm.
  exists (trace (headToAddy w h' "To") ++ trace (headToAddy w h' "Cc")).
  split; [by apply Forall_app|].
  unfold pool_send. cbv zeta. fold (stamped cfg w h). fold h'. fold m'.
  rewrite (M_eta (headToAddy w _ "To")), HoTo, bind_Done.
  rewrite (M_eta (headToAddy w _ "Cc")), HoCc, bind_Done.
  fold (recipients w h').
  replace (recipients w h') with (recipients w h)
    by (symmetry; apply recipients_stamped).
  destruct (recipients w h) as [|r rs] eqn:Er.
  { cbn [length Nat.eqb]. cbn [mret M_mret trace outcome]. by rewrite app_nil_r. }
  cbn [length Nat.eqb].
  rewrite Hasm, bind_Done. cbn [mail.Header mail.Body m' trace].
  destruct (mailBytes cfg w _ (r :: rs)) as [ts [err|m]];
    cbn [trace outcome mbind M_mbind M_bind mret M_mret];
    f_equal; cbn [app]; by rewrite <- ?app_assoc, ?app_nil_r.
Qed.

(** X6: when [mailPoolFile] returns with the
    delete flag on, nothing was handed to a delivery sink.  The file was
    opened, and the message did not parse (the error is returned), or the
    entry exceeded the maximum age (no error is returned), or the age
    test passed and the message had no recipient. *)
Theorem mailPoolFile_deleted_undelivered (cfg : config.Config) (w : World)
    (filename : string) (err : option error) :
  outcome (mailPoolFile cfg w filename) = Done (true, err) →
  Forall (fun ev => delivery_event ev = false)
    (trace (mailPoolFile cfg w filename))
  ∧ ∃ f, os_Open w filename = Ok f
         ∧ match mail_ReadMessage w f with
           | Err e => err = Some e
           | Ok msg =>
               match age_check cfg w (mail.Header msg) with
               | TooOld => err = None
               | BadDate _ => False
               | Unmarked | Current _ =>
                   recipients w (mail.Header msg) = []
                   ∧ err = Some (filename +:+ ": No email recipients found")
               end
           end.
Proof.
  destruct (os_Open w filename) as [f|e] eqn:Hopen.
  2:{ unfold mailPoolFile, call. by rewrite Hopen. }
  destruct (mail_ReadMessage w f) as [msg|e] eqn:Hread.
  2:{ unfold mailPoolFile, call. rewrite Hopen, bind_Done. cbv beta iota.
      rewrite Hread. cbn. intros [= <-]. split; [by repeat constructor|].
      exists f. by rewrite Hread. }
  rewrite (mailPoolFile_read cfg w filename f msg Hopen Hread). cbv zeta.
  cbn [trace outcome]. intros Ho.
  assert (∀ a, age_passed a = true →
            outcome (pool_send cfg w filename msg
                       (checked_header a (mail.Header msg))) = Done (true, err) →
            Forall (fun ev => delivery_event ev = false)
              (trace (pool_send cfg w filename msg
                        (checked_header a (mail.Header msg))))
            ∧ recipients w (mail.Header msg) = []
            ∧ err = Some (filename +:+ ": No email recipients found")) as Hsend.
  { intros a _.
    destruct (pool_send_run cfg w filename msg (checked_header a (mail.Header msg)))
      as (pre & Hpre & ->).
    rewrite recipients_checked.
    destruct (recipients w (mail.Header msg)) as [|r rs].
    - cbn [trace outcome]. by intros [= <-].
    - cbv zeta. cbn [outcome]. by destruct (outcome (mailBytes _ _ _ _)). }
  destruct (age_check cfg w (mail.Header msg)) as [|e| |age] eqn:Ha;
    cbn [age_passed age_log] in *.
  - destruct (Hsend Unmarked eq_refl Ho) as (Ht & Hr & He).
    split; [|exists f; by rewrite Hread, Ha].
    repeat constructor. apply Forall_app. split; [done|by repeat constructor].
  - done.
  - injection Ho as <-. split; [by repeat constructor|].
    exists f. by rewrite Hread, Ha.
  - destruct (Hsend (Current age) eq_refl Ho) as (Ht & Hr & He).
    split; [|exists f; by rewrite Hread, Ha].
    repeat constructor. apply Forall_app. split.
    + destruct (age >? 0)%Z; by repeat constructor.
    + apply Forall_app. split; [done|by repeat constructor].
Qed.

Lemma mailPoolFile_deleted_undelivered_witness :
  Forall (fun ev => delivery_event ev = false)
    (trace (mailPoolFile sample.cfg
              (sample.world "m1" sample.old_message sample.mxs) "m1")).
Proof.
  exact (proj1 (mailPoolFile_deleted_undelivered sample.cfg
                  (sample.world "m1" sample.old_message sample.mxs) "m1" None
                  eq_refl)).
Defined.

(** X7: [mailPoolFile] closes the file it opened.
    After a successful [os.Open] the run starts with the opening and the
    reading of the file and ends with its closing, whatever happens in
    between, a panic of the delivery included.  When [os.Open] fails the
    run is the opening and one line of the log, and the result is the
    error with the delete flag off. *)
Theorem mailPoolFile_file_handle (cfg : config.Config) (w : World)
    (filename : string) :
  match os_Open w filename with
  | Err e =>
      mailPoolFile cfg w filename
      = Run [OsOpen filename;
             Log LvError "Failed to read file for mailing: %s" [e]]
          (Done (false, Some e))
  | Ok f =>
      ∃ mid, trace (mailPoolFile cfg w filename)
             = OsOpen filename :: ReadMessage f :: mid ++ [FileClose f]
  end.
Proof.
  unfold mailPoolFile, call. destruct (os_Open w filename) as [f|e]; [|done].
  rewrite bind_Done. cbv beta iota. unfold defer. cbn [trace app].
  rewrite trace_bind. cbn [trace app]. by eexists.
Qed.

(** X8: a pool file that opens and parses, that
    passes the age test (it has no pooled date, or one that is not older
    than [MaxAge]) and that has no recipient, is flagged for deletion
    with the error [<filename>: No email recipients found]; nothing is
    handed to a delivery sink. *)
Theorem mailPoolFile_no_recipients (cfg : config.Config) (w : World)
    (filename : string) (f : File) (msg : mail.Message) :
  os_Open w filename = Ok f →
  mail_ReadMessage w f = Ok msg →
  age_passed (age_check cfg w (mail.Header msg)) = true →
  recipients w (mail.Header msg) = [] →
  outcome (mailPoolFile cfg w filename)
  = Done (true, Some (filename +:+ ": No email recipients found"))
  ∧ Forall (fun ev => delivery_event ev = false)
      (trace (mailPoolFile cfg w filename)).
Proof.
  intros Hopen Hread Hage Hrcpt.
  rewrite (mailPoolFile_read cfg w filename f msg Hopen Hread). cbv zeta.
  rewrite Hage. cbn [trace outcome].
  destruct (pool_send_run cfg w filename msg
              (checked_header (age_check cfg w (mail.Header msg)) (mail.Header msg)))
    as (pre & Hpre & ->).
  rewrite recipients_checked, Hrcpt. cbn [trace outcome]. split; [done|].
  repeat constructor. apply Forall_app. split.
  - destruct (age_check cfg w (mail.Header msg)) as [|e| |age]; try done.
    + by repeat constructor.
    + cbn [age_log]. destruct (age >? 0)%Z; by repeat constructor.
  - apply Forall_app. split; [done|by repeat constructor].
Qed.

Lemma mailPoolFile_no_recipients_witness :
  outcome (mailPoolFile sample.cfg
             (sample.world "m1" sample.lost_message sample.mxs) "m1")
  = Done (true, Some ("m1" +:+ ": No email recipients found"))
  ∧ Forall (fun ev => delivery_event ev = false)
      (trace (mailPoolFile sample.cfg
                (sample.world "m1" sample.lost_message sample.mxs) "m1")).
Proof.
  apply (mailPoolFile_no_recipients sample.cfg
           (sample.world "m1" sample.lost_message sample.mxs)
           "m1" "m1" sample.lost_message).
  - reflexivity.
  - reflexivity.
  - vm_compute. reflexivity.
  - vm_compute. reflexivity.
Defined.

(** X9: a pool file whose pooled date parses to an age of at
    most [MaxAge] days, with at least one recipient, is delivered without
    its marker.  The [Yamn-Pooled-Date] header is absent from the header
    that is stamped and assembled; after events that belong to no
    delivery, [mailBytes] runs on the assembled payload and on the
    recipients, the file is closed, and the result is the error of
    [mailBytes] with the delete flag off. *)
Theorem mailPoolFile_current (cfg : config.Config) (w : World)
    (filename : string) (f : File) (msg : mail.Message) (age : Z) :
  os_Open w filename = Ok f →
  mail_ReadMessage w f = Ok msg →
  age_check cfg w (mail.Header msg) = Current age →
  recipients w (mail.Header msg) ≠ [] →
  let h := stamped cfg w (delete "Yamn-Pooled-Date" (mail.Header msg)) in
  h !! "Yamn-Pooled-Date" = None
  ∧ (age ≤ config.MaxAge (config.Pool cfg))%Z
  ∧ ∃ pre payload,
      Forall (fun ev => delivery_event ev = false) pre
      ∧ outcome (assemble w {| mail.Header := h; mail.Body := mail.Body msg |})
        = Done payload
      ∧ mailPoolFile cfg w filename
        = Run (pre ++ trace (mailBytes cfg w payload
                               (recipients w (mail.Header msg)))
                   ++ [FileClose f])
            (match outcome (mailBytes cfg w payload
                              (recipients w (mail.Header msg))) with
             | Done err => Done (false, err)
             | Panic m => Panic m
             end).
Proof.
  intros Hopen Hread Hage Hrcpt h. split; [|split].
  - unfold h, stamped. rewrite !lookup_insert_ne by done. apply lookup_delete_eq.
  - unfold age_check in Hage.
    destruct (String.eqb _ _); [done|].
    destruct (time_Parse w shortdate _) as [d|e]; [|done]. cbv zeta in Hage.
    destruct (Z.gtb_spec (daysAgo w d) (config.MaxAge (config.Pool cfg)));
      [done|]. injection Hage as <-. lia.
  - rewrite (mailPoolFile_read cfg w filename f msg Hopen Hread). cbv zeta.
    rewrite Hage. cbn [age_passed checked_header age_log].
    destruct (pool_send_run cfg w filename msg
                (delete "Yamn-Pooled-Date" (mail.Header msg)))
      as (pre & Hpre & ->).
    pose proof (recipients_checked w (Current age) (mail.Header msg)) as Hrc.
    cbn [checked_header] in Hrc. rewrite Hrc.
    destruct (recipients w (mail.Header msg)) as [|r rs] eqn:Er; [done|].
    cbv zeta. fold h. cbn [trace outcome].
    pose proof (assemble_run w {| mail.Header := h; mail.Body := mail.Body msg |})
      as Hasm. cbv zeta in Hasm. cbn [mail.Header mail.Body] in Hasm.
    exists (OsOpen filename :: ReadMessage f
            :: (if (age >? 0)%Z
                then [Log LvTrace "Mailing pooled file that's %d days old."
                        [pretty age]]
                else [])
            ++ pre
            ++ trace (assemble w {| mail.Header := h; mail.Body := mail.Body msg |})),
           (header_block h (range_keys w h) +:+ LF +:+ mail.Body msg).
    split; [|split].
    + repeat constructor. apply Forall_app. split.
      { destruct (age >? 0)%Z; by repeat constructor. }
      apply Forall_app. split; [done|].
      rewrite Hasm. cbn [trace]. apply Forall_forall.
      by intros ev (k & -> & _)%list_elem_of_fmap.
    + by rewrite Hasm.
    + f_equal. cbn [app]. by rewrite <- !app_assoc.
Qed.

Lemma mailPoolFile_current_witness :
  stamped sample.cfg_outfile
    (sample.world "m1" sample.fresh_message sample.mxs)
    (delete "Yamn-Pooled-Date" (mail.Header sample.fresh_message))
    !! "Yamn-Pooled-Date" = None.
Proof.
  exact (proj1 (mailPoolFile_current sample.cfg_outfile
                  (sample.world "m1" sample.fresh_message sample.mxs)
                  "m1" "m1" sample.fresh_message 7%Z
                  eq_refl eq_refl eq_refl
                  ltac:(vm_compute; discriminate))).
Defined.

(** *** Delivery into a file and to a command *)

Ltac all_events_by tac :=
  repeat first
    [ apply all_ret | apply all_panic | apply all_deref
    | apply all_log; tac | apply all_call; tac
    | apply all_defer; [tac|]
    | apply all_bind; [|intros ?]
    | progress cbv beta zeta | case_match ].

Lemma mailBytes_outfile_run cfg w payload sendTo :
  config.Outfile (config.Mail cfg) = true →
  ∃ pre,
    Forall (fun e => ∃ lvl format args, e = Log lvl format args) pre
    ∧ mailBytes cfg w payload sendTo
      = match os_Create w (randPoolFilename w "outfile-") with
        | Err e =>
            Run (pre ++ [OsCreate (randPoolFilename w "outfile-");
                         Log LvWarn ("Pool file creation failed: %s" +:+ LF) [e]])
              (Done (Some e))
        | Ok f =>
            Run (pre ++ OsCreate (randPoolFilename w "outfile-")
                     :: FileWriteString f payload
                     :: match file_WriteString w f payload with
                        | Some e =>
                            [Log LvWarn ("Outfile write failed: %s" +:+ LF) [e]]
                        | None => []
                        end ++ [FileClose f])
              (Done (file_WriteString w f payload))
        end.
Proof.
  intros Hout. unfold mailBytes. rewrite Hout. cbv zeta.
  exists [Log LvTrace "Message recipients are: %s" [strings.Join sendTo ","];
          Log LvTrace "Writing output to %s" [randPoolFilename w "outfile-"]].
  split; [repeat constructor; by eexists _, _, _|].
  unfold log, call. rewrite !bind_Done.
  destruct (os_Create w _) as [f|e]; [|reflexivity].
  cbv beta iota. unfold defer. rewrite bind_Done.
  by destruct (file_WriteString w f payload).
Qed.

(** X10: with [Outfile] set, [mailBytes] touches the log and the
    output file only, whatever the other delivery settings are.  What it
    writes is the unchanged payload, to the file created under the name
    that [randPoolFilename] gave; this file is closed last and the result
    is the result of the write.  A return without an error means that
    the payload was written. *)
Theorem mailBytes_outfile (cfg : config.Config) (w : World)
    (payload : string) (sendTo : list string) :
  config.Outfile (config.Mail cfg) = true →
  Forall (fun e => file_event e = true) (trace (mailBytes cfg w payload sendTo))
  ∧ (∀ f s, FileWriteString f s ∈ trace (mailBytes cfg w payload sendTo) →
       s = payload
       ∧ os_Create w (randPoolFilename w "outfile-") = Ok f
       ∧ last (trace (mailBytes cfg w payload sendTo)) = Some (FileClose f)
       ∧ outcome (mailBytes cfg w payload sendTo)
         = Done (file_WriteString w f payload))
  ∧ (outcome (mailBytes cfg w payload sendTo) = Done None →
     ∃ f, FileWriteString f payload ∈ trace (mailBytes cfg w payload sendTo)).
Proof.
  intros Hout.
  destruct (mailBytes_outfile_run cfg w payload sendTo Hout) as (pre & Hpre & ->).
  assert (Forall (fun e => file_event e = true) pre) as Hfile.
  { eapply Forall_impl; [exact Hpre|]. by intros e (? & ? & ? & ->). }
  assert (∀ f s, FileWriteString f s ∉ pre) as Hnot.
  { intros f s Hin. rewrite Forall_forall in Hpre.
    by destruct (Hpre _ Hin) as (? & ? & ? & ?). }
  destruct (os_Create w _) as [f|e]; cbn [trace outcome].
  - split; [|split].
    + apply Forall_app. split; [done|]. repeat constructor.
      apply Forall_app. split; [|by repeat constructor].
      destruct (file_WriteString w f payload); by repeat constructor.
    + intros f' s Hin. apply elem_of_app in Hin as [Hin|Hin]; [by apply Hnot in Hin|].
      apply elem_of_cons in Hin as [[=]|Hin].
      apply elem_of_cons in Hin as [[= -> ->]|Hin].
      * split; [done|]. split; [done|]. split; [|done].
        match goal with
        | |- last (pre ++ ?a :: ?b :: ?x ++ [?c]) = _ =>
            change (a :: b :: x ++ [c]) with ([a; b] ++ x ++ [c])
        end.
        rewrite !app_assoc. apply last_snoc.
      * apply elem_of_app in Hin as [Hin|Hin].
        -- destruct (file_WriteString w f payload); [|by apply elem_of_nil in Hin].
           by apply elem_of_cons in Hin as [[=]|Hin%elem_of_nil].
        -- by apply elem_of_cons in Hin as [[=]|Hin%elem_of_nil].
    + intros _. exists f. apply elem_of_app. right.
      apply elem_of_cons. right. apply elem_of_cons. by left.
  - split; [|split].
    + apply Forall_app. split; [done|]. by repeat constructor.
    + intros f' s Hin. apply elem_of_app in Hin as [Hin|Hin]; [by apply Hnot in Hin|].
      apply elem_of_cons in Hin as [[=]|Hin].
      by apply elem_of_cons in Hin as [[=]|Hin%elem_of_nil].
    + done.
Qed.

Lemma mailBytes_outfile_witness :
  Forall (fun e => file_event e = true)
    (trace (mailBytes sample.cfg_outfile sample.w1 "payload"
              ["bob@example.com"])).
Proof.
  exact (proj1 (mailBytes_outfile sample.cfg_outfile sample.w1 "payload"
                  ["bob@example.com"] eq_refl)).
Defined.

Lemma execSend_events w payload execCmd :
  all_events (process_event (strings.Fields execCmd) payload)
    (execSend w payload execCmd).
Proof.
  unfold execSend. cbv zeta.
  destruct (strings.Fields execCmd) as [|a args]; [apply all_panic|].
  all_events_by ltac:(by cbn).
Qed.








(** *** The transport of [smtpRelay] *)

Lemma all_events_impl {A} (P Q : Event → Prop) (m : M A) :
  (∀ e, P e → Q e) → all_events P m → all_events Q m.
Proof. intros H Hm. eapply Forall_impl; [exact Hm|exact H]. Qed.

Lemma smtpRelay_rcpt_smtp client sendTo :
  all_events (fun e => smtp_event e = true) (smtpRelay_rcpt client sendTo).
Proof.
  induction sendTo as [|addr rest IH]; [apply all_ret|].
  cbn [smtpRelay_rcpt]. apply all_bind; [by apply all_call|].
  intros [e|]; [|done]. all_events_tac.
Qed.

Lemma smtpRelay_session_smtp cfg client relay serverAddr useTor payload sendTo :
  all_events (fun e => smtp_event e = true)
    (smtpRelay_session cfg client relay serverAddr useTor payload sendTo).
Proof.
  unfold smtpRelay_session.
  repeat first [ apply smtpRelay_rcpt_smtp | all_events_step
               | progress cbv beta zeta | case_match ].
Qed.

(** The events of [smtpRelay], from those of its parts. *)
Lemma smtpRelay_all (P : Event → Prop) cfg w payload sendTo :
  all_events P
    (smtpRelay_endpoint cfg w sendTo (existsb (shouldUseTor cfg) sendTo)) →
  (∀ tor serverAddr,
     config.Tor cfg = Some tor →
     all_events P
       (smtpRelay_dial cfg w (existsb (shouldUseTor cfg) sendTo) serverAddr
          (relay_timeout tor))) →
  (∀ e, smtp_event e = true → P e) →
  (∀ conn relay, P (SmtpNewClient conn relay)) →
  P SmtpQuit →
  all_events P (smtpRelay cfg w payload sendTo).
Proof.
  intros Hep Hdial Hsmtp Hnew Hquit. unfold smtpRelay. cbv zeta.
  apply all_bind; [done|intros [relay port]].
  destruct (config.Tor cfg) as [tor|] eqn:Htor; [|apply all_panic].
  unfold all_events. rewrite trace_bind.
  cbn [deref mret M_mret trace outcome app].
  apply (all_bind P); [by apply Hdial|intros [conn|e]; [|apply all_ret]].
  apply all_bind; [by apply all_call|intros [client|e]].
  - apply all_defer; [done|].
    eapply all_events_impl; [exact Hsmtp|apply smtpRelay_session_smtp].
  - apply all_bind; [|intros; apply all_ret].
    apply all_log. by apply Hsmtp.
Qed.

Lemma smtpRelay_endpoint_tor cfg w sendTo :
  smtpRelay_endpoint cfg w sendTo true
  = mret (config.SMTPRelay (config.Mail cfg), config.SMTPPort (config.Mail cfg)).
Proof.
  unfold smtpRelay_endpoint. destruct sendTo as [|rcpt [|]]; try done.
  by rewrite andb_false_r.
Qed.

Lemma dialThroughTor_socks cfg w address :
  all_events
    (fun e =>
       match e with
       | Log _ _ _ => True
       | SocksDial proxy timeout network addr =>
           ∃ tor, config.Tor cfg = Some tor
                  ∧ proxy = tor_proxy tor ∧ timeout = relay_timeout tor
                  ∧ network = "tcp" ∧ addr = address
       | _ => False
       end)
    (dialThroughTor cfg w address).
Proof.
  unfold dialThroughTor.
  destruct (config.Tor cfg) as [tor|]; [|apply all_panic].
  unfold all_events. rewrite trace_bind.
  cbn [deref mret M_mret trace outcome app].
  match goal with |- Forall ?P (trace ?m) => change (all_events P m) end.
  all_events_by
    ltac:(first
            [ exact I
            | exists tor; unfold tor_proxy, relay_timeout; cbv zeta;
              repeat match goal with
                     | H : ?x = _ |- context [?x] => rewrite H
                     end; done ]).
Qed.

Lemma smtpRelay_dial_run cfg w useTor serverAddr timeout :
  all_events
    (fun e =>
       match e with
       | Log _ _ _ => True
       | SocksDial proxy t network addr =>
           useTor = true
           ∧ ∃ tor, config.Tor cfg = Some tor
                    ∧ proxy = tor_proxy tor ∧ t = relay_timeout tor
                    ∧ network = "tcp" ∧ addr = serverAddr
       | DialTimeout network addr t =>
           useTor = false ∧ network = "tcp" ∧ addr = serverAddr ∧ t = timeout
       | _ => False
       end)
    (smtpRelay_dial cfg w useTor serverAddr timeout).
Proof.
  unfold smtpRelay_dial. destruct useTor.
  - apply all_bind.
    + eapply all_events_impl; [|apply dialThroughTor_socks].
      intros [] H; first [done | by split].
    + intros [conn|e]; all_events_by ltac:(exact I).
  - all_events_by ltac:(first [exact I | done]).
Qed.

Lemma smtpRelay_transport_events cfg w payload sendTo :
  all_events
    (fun e => transport_event (existsb (shouldUseTor cfg) sendTo) e = true)
    (smtpRelay cfg w payload sendTo).
Proof.
  apply smtpRelay_all.
  - destruct (existsb (shouldUseTor cfg) sendTo).
    + rewrite smtpRelay_endpoint_tor. apply all_ret.
    + eapply all_events_impl; [|apply smtpRelay_endpoint_events].
      by intros [].
  - intros tor serverAddr _.
    eapply all_events_impl; [|apply smtpRelay_dial_run].
    intros [] H; try done; cbn in H; cbn; by destruct H as [-> _].
  - by intros [].
  - done.
  - done.
Qed.

(** X14: a run of [smtpRelay] uses one transport.
    A SOCKS dial occurs only when some recipient asks for Tor; a DNS
    query or a direct dial occurs only when no recipient asks for Tor.
    So one recipient that asks for Tor sends the message through Tor for
    all recipients. *)
Theorem smtpRelay_transport_exclusive (cfg : config.Config) (w : World)
    (payload : string) (sendTo : list string) :
  all_events
    (fun e =>
       match e with
       | SocksDial _ _ _ _ =>
           Exists (fun rcpt => shouldUseTor cfg rcpt = true) sendTo
       | _ =>
           direct_event e = true →
           Forall (fun rcpt => shouldUseTor cfg rcpt = false) sendTo
       end)
    (smtpRelay cfg w payload sendTo).
Proof.
  eapply all_events_impl; [|apply smtpRelay_transport_events].
  assert (existsb (shouldUseTor cfg) sendTo = true →
          Exists (fun rcpt => shouldUseTor cfg rcpt = true) sendTo) as Hex.
  { intros (x & Hin & Hx)%existsb_exists. apply Exists_exists.
    exists x. split; [by apply list_elem_of_In|done]. }
  assert (existsb (shouldUseTor cfg) sendTo = false →
          Forall (fun rcpt => shouldUseTor cfg rcpt = false) sendTo) as Hall.
  { intros Hf. apply Forall_forall. intros x Hin%list_elem_of_In.
    destruct (shouldUseTor cfg x) eqn:Hx; [|done].
    assert (existsb (shouldUseTor cfg) sendTo = true) as Ht
      by (apply existsb_exists; by exists x).
    congruence. }
  intros [] H; cbn in H |- *; try done; try (intros _; apply Hall);
    try (by apply Hex); by destruct (existsb _ _).
Qed.

Lemma shouldUseTor_forced cfg address :
  tor_enabled cfg = true →
  config.ForceTorSMTP (config.Mail cfg) = true →
  shouldUseTor cfg address = true.
Proof.
  unfold tor_enabled, shouldUseTor. destruct (config.Tor cfg) as [tor|]; [|done].
  intros -> ->. cbn. by destruct (strings.Contains _ _).
Qed.

Lemma transport_tor_direct e :
  transport_event true e = true → direct_event e = false.
Proof. by destruct e. Qed.

Lemma mailBytes_force_tor_events cfg w payload sendTo :
  tor_enabled cfg = true →
  config.ForceTorSMTP (config.Mail cfg) = true →
  sendTo ≠ [] →
  all_events (fun e => direct_event e = false) (mailBytes cfg w payload sendTo).
Proof.
  intros Htor Hforce Hne.
  assert (existsb (shouldUseTor cfg) sendTo = true) as Huse.
  { destruct sendTo as [|a l]; [done|]. cbn [existsb].
    by rewrite shouldUseTor_forced. }
  unfold mailBytes. apply all_bind; [by apply all_log|intros _].
  destruct (config.Outfile (config.Mail cfg)); [all_events_tac|].
  destruct (negb _).
  { eapply all_events_impl; [|apply execSend_events]. by intros []. }
  assert (all_events (fun e => direct_event e = false)
            (smtpRelay cfg w payload sendTo)) as Hrelay.
  { eapply all_events_impl; [|apply smtpRelay_transport_events].
    rewrite Huse. apply transport_tor_direct. }
  destruct (config.Sendmail (config.Mail cfg)); [|done].
  unfold sendmailTor, tor_enabled in *.
  destruct (config.Tor cfg) as [tor|]; [|done]. rewrite Htor. cbn [negb].
  apply all_bind; [by apply all_log|done].
Qed.

(** X15: with Tor enabled and [ForceTorSMTP] set, [mailBytes]
    for at least one recipient never reaches the network directly,
    whatever the delivery mode is: no DNS query, no direct dial, no
    [smtp.SendMail].  Without [Outfile] and without a pipe command its
    run ends with the run of [smtpRelay], in sendmail mode too. *)
Theorem mailBytes_force_tor (cfg : config.Config) (w : World)
    (payload : string) (sendTo : list string) :
  tor_enabled cfg = true →
  config.ForceTorSMTP (config.Mail cfg) = true →
  sendTo ≠ [] →
  Forall (fun e => direct_event e = false)
    (trace (mailBytes cfg w payload sendTo))
  ∧ (config.Outfile (config.Mail cfg) = false →
     config.Pipe (config.Mail cfg) = "" →
     ∃ t, trace (mailBytes cfg w payload sendTo)
          = t ++ trace (smtpRelay cfg w payload sendTo)).
Proof.
  intros Htor Hforce Hne. split; [by apply mailBytes_force_tor_events|].
  intros Hout Hpipe. unfold mailBytes. rewrite Hout, Hpipe. cbn [String.eqb negb].
  unfold sendmailTor, tor_enabled in *.
  destruct (config.Tor cfg) as [tor|]; [|done]. rewrite Htor. cbn [negb].
  rewrite trace_bind. cbn [outcome log call].
  destruct (config.Sendmail (config.Mail cfg)).
  - rewrite trace_bind. cbn [outcome log call trace]. rewrite app_assoc. by eexists.
  - by eexists.
Qed.

Lemma mailBytes_force_tor_witness :
  Forall (fun e => direct_event e = false)
    (trace (mailBytes sample.cfg_onion_relay sample.w1 "payload"
              ["bob@example.com"])).
Proof.
  exact (proj1 (mailBytes_force_tor sample.cfg_onion_relay sample.w1 "payload"
                  ["bob@example.com"] eq_refl eq_refl
                  ltac:(discriminate))).
Defined.

(** X16: with Tor enabled and [ForceTorSMTP] set, no run of
    [mailPoolFile] reaches the network directly: whatever the pool file
    holds and whatever the delivery mode is, there is no DNS query, no
    direct dial and no [smtp.SendMail]. *)
Theorem mailPoolFile_force_tor (cfg : config.Config) (w : World)
    (filename : string) :
  tor_enabled cfg = true →
  config.ForceTorSMTP (config.Mail cfg) = true →
  Forall (fun e => direct_event e = false) (trace (mailPoolFile cfg w filename)).
Proof.
  intros Htor Hforce.
  destruct (os_Open w filename) as [f|e] eqn:Hopen.
  2:{ unfold mailPoolFile, call. rewrite Hopen. by repeat constructor. }
  destruct (mail_ReadMessage w f) as [msg|e] eqn:Hread.
  2:{ unfold mailPoolFile, call. rewrite Hopen, bind_Done. cbv beta iota.
      rewrite Hread. by repeat constructor. }
  rewrite (mailPoolFile_read cfg w filename f msg Hopen Hread). cbv zeta.
  cbn [trace]. repeat constructor. apply Forall_app. split.
  { destruct (age_check cfg w (mail.Header msg)) as [|e| |age];
      try by repeat constructor.
    cbn [age_log]. destruct (age >? 0)%Z; by repeat constructor. }
  apply Forall_app. split; [|by repeat constructor].
  destruct (age_passed _); [|constructor].
  destruct (pool_send_run cfg w filename msg
              (checked_header (age_check cfg w (mail.Header msg)) (mail.Header msg)))
    as (pre & Hpre & ->).
  assert (Forall (fun e => direct_event e = false) pre) as Hpre'.
  { eapply Forall_impl; [exact Hpre|]. by intros []. }
  destruct (recipients w _) as [|r rs] eqn:Er; [done|].
  cbv zeta. cbn [trace]. apply Forall_app. split; [done|].
  apply Forall_app. split.
  - rewrite assemble_run. cbn [trace]. apply Forall_forall.
    by intros ev (k & -> & _)%list_elem_of_fmap.
  - by apply mailBytes_force_tor_events.
Qed.

Lemma mailPoolFile_force_tor_witness :
  Forall (fun e => direct_event e = false)
    (trace (mailPoolFile sample.cfg_onion_relay sample.w1 "m1")).
Proof.
  apply (mailPoolFile_force_tor sample.cfg_onion_relay sample.w1 "m1");
    reflexivity.
Defined.

(** *** The SMTP session *)

Lemma smtpRelay_rcpt_run client sendTo :
  (smtpRelay_rcpt client sendTo = Run (map SmtpRcpt sendTo) (Done None)
   ∧ Forall (fun a => client_Rcpt client a = None) sendTo)
  ∨ ∃ e, outcome (smtpRelay_rcpt client sendTo) = Done (Some e)
         ∧ Forall (fun ev => data_event ev = false)
             (trace (smtpRelay_rcpt client sendTo)).
Proof.
  induction sendTo as [|addr rest IH]; [by left|].
  cbn [smtpRelay_rcpt]. rewrite bind_call.
  destruct (client_Rcpt client addr) as [e|] eqn:Haddr.
  - right. exists e. split; [done|]. by repeat constructor.
  - destruct IH as [[-> Hall]|(e & Ho & Ht)].
    + left. split; [done|]. by constructor.
    + right. exists e. split; [done|]. by constructor.
Qed.

Lemma envelope_no_data cfg client relay sendTo :
  Forall (fun ev => envelope_event ev = true)
    (envelope_commands cfg client relay sendTo).
Proof.
  unfold envelope_commands. constructor; [done|].
  apply Forall_app. split; [destruct (_ && _); by repeat constructor|].
  constructor; [done|].
  apply Forall_app. split; [destruct (auth_wanted _ _); by repeat constructor|].
  constructor; [done|]. apply Forall_forall.
  by intros ev (a & -> & _)%list_elem_of_fmap.
Qed.

(** The session of [smtpRelay]: it ends with an error before the DATA
    command, or the envelope is accepted and the DATA command follows. *)
Lemma smtpRelay_session_cases cfg client relay serverAddr useTor payload sendTo :
  (Forall (fun ev => data_event ev = false)
     (trace (smtpRelay_session cfg client relay serverAddr useTor payload sendTo))
   ∧ ∃ e, outcome (smtpRelay_session cfg client relay serverAddr useTor
                     payload sendTo) = Done (Some e))
  ∨ ∃ rest,
      trace (smtpRelay_session cfg client relay serverAddr useTor payload sendTo)
      = envelope_commands cfg client relay sendTo ++ SmtpData :: rest
      ∧ (client_Extension client "STARTTLS" && tls_allowed cfg relay = true →
         client_StartTLS client = None)
      ∧ client_Mail client (sender cfg) = None
      ∧ Forall (fun a => client_Rcpt client a = None) sendTo
      ∧ ((outcome (smtpRelay_session cfg client relay serverAddr useTor
                     payload sendTo) = Done None
          ∧ rest = [DataWrite payload; DataClose;
                    Log LvTrace
                      (if useTor then "Email sent via Tor to %s"
                       else "Email sent directly to %s") [serverAddr]])
         ∨ (∃ e, outcome (smtpRelay_session cfg client relay serverAddr useTor
                            payload sendTo) = Done (Some e)
                 ∧ Forall (fun ev => ev = DataWrite payload ∨ ev = DataClose
                                     ∨ ∃ format, ev = Log LvWarn format [e])
                     rest)).
Proof.
  unfold smtpRelay_session, envelope_commands. cbv zeta.
  destruct (smtpRelay_rcpt_run client sendTo) as [[Hr Hall]|(er & Hro & Hrt)].
  - rewrite Hr.
    cbv [mbind M_mbind M_bind call log mret M_mret trace outcome].
    replace (if strings.Contains relay ".onion"
                && config.DisableTLSOnion (config.Mail cfg)
             then false else config.UseTLS (config.Mail cfg))
      with (tls_allowed cfg relay)
      by (unfold tls_allowed;
          by destruct (strings.Contains relay ".onion"),
               (config.DisableTLSOnion (config.Mail cfg)),
               (config.UseTLS (config.Mail cfg))).
    fold (auth_wanted cfg client). fold (sender cfg).
    destruct (client_Extension client "STARTTLS" && tls_allowed cfg relay);
      try destruct (client_StartTLS client) as [e1|];
      try destruct (auth_wanted cfg client);
      try destruct (client_Auth client (config.Username (config.Mail cfg))
                      (config.Password (config.Mail cfg))
                      (config.SMTPRelay (config.Mail cfg))) as [e2|];
      try destruct (client_Mail client (sender cfg)) as [e3|];
      try destruct (client_Data client) as [wr|e4];
      try destruct (data_Write wr payload) as [e5|];
      try destruct (data_Close wr) as [e6|];
      try destruct useTor;
      cbn [app];
      first
        [ left; split; [by repeat constructor|by eexists]
        | right; eexists; split; [reflexivity|];
          split; [done|]; split; [done|]; split; [done|];
          first
            [ left; by split
            | right; eexists; split; [reflexivity|];
              repeat (apply Forall_cons; split); try apply Forall_nil;
              eauto ] ].
  - destruct (smtpRelay_rcpt client sendTo) as [t o].
    cbn [trace outcome] in Hro, Hrt. subst o. left.
    cbv [mbind M_mbind M_bind call log mret M_mret trace outcome].
    replace (if strings.Contains relay ".onion"
                && config.DisableTLSOnion (config.Mail cfg)
             then false else config.UseTLS (config.Mail cfg))
      with (tls_allowed cfg relay)
      by (unfold tls_allowed;
          by destruct (strings.Contains relay ".onion"),
               (config.DisableTLSOnion (config.Mail cfg)),
               (config.UseTLS (config.Mail cfg))).
    fold (auth_wanted cfg client). fold (sender cfg).
    destruct (client_Extension client "STARTTLS" && tls_allowed cfg relay);
      try destruct (client_StartTLS client) as [e1|];
      try destruct (auth_wanted cfg client);
      try destruct (client_Auth client (config.Username (config.Mail cfg))
                      (config.Password (config.Mail cfg))
                      (config.SMTPRelay (config.Mail cfg))) as [e2|];
      try destruct (client_Mail client (sender cfg)) as [e3|];
      cbn [app];
      (split;
       [ repeat first [ apply Forall_cons; split; [done|]
                      | apply Forall_app; split; [done|]
                      | by apply Forall_nil ]
       | by eexists ]).
Qed.

Lemma mxLookup_queries cfg w email :
  all_events
    (fun e =>
       match e with
       | Log _ _ _ => True
       | LookupMX d =>
           d = domain (fst (splitEmailAddress email))
           ∧ snd (splitEmailAddress email) = None
           ∧ strings.HasSuffix d ".onion" = false
       | _ => False
       end)
    (mxLookup cfg w email).
Proof.
  unfold mxLookup. destruct (splitEmailAddress email) as [e [err|]];
    [apply all_ret|].
  destruct (strings.HasSuffix (domain e) ".onion") eqn:Hs.
  - all_events_by ltac:(exact I).
  - all_events_by ltac:(first [exact I | done]).
Qed.

(** X17: [smtpRelay] asks DNS for an MX record only when
    [MXRelay] is set and there is exactly one recipient, which does not
    contain [.onion] and does not ask for Tor.  The query is for the
    domain of this recipient, which is well formed, and the domain does
    not end in [.onion]. *)
Theorem smtpRelay_mx_lookup_guard (cfg : config.Config) (w : World)
    (payload : string) (sendTo : list string) (d : string) :
  LookupMX d ∈ trace (smtpRelay cfg w payload sendTo) →
  config.MXRelay (config.Mail cfg) = true
  ∧ ∃ rcpt,
      sendTo = [rcpt]
      ∧ strings.Contains rcpt ".onion" = false
      ∧ shouldUseTor cfg rcpt = false
      ∧ splitEmailAddress rcpt
        = ({| name := name (fst (splitEmailAddress rcpt)); domain := d |}, None)
      ∧ strings.HasSuffix d ".onion" = false.
Proof.
  intros Hin.
  pose (P := fun e =>
          match e with
          | LookupMX d =>
              config.MXRelay (config.Mail cfg) = true
              ∧ ∃ rcpt,
                  sendTo = [rcpt]
                  ∧ strings.Contains rcpt ".onion" = false
                  ∧ shouldUseTor cfg rcpt = false
                  ∧ splitEmailAddress rcpt
                    = ({| name := name (fst (splitEmailAddress rcpt));
                          domain := d |}, None)
                  ∧ strings.HasSuffix d ".onion" = false
          | _ => True
          end).
  assert (all_events P (smtpRelay cfg w payload sendTo)) as Hall.
  { apply smtpRelay_all; try done.
    - unfold smtpRelay_endpoint.
      destruct sendTo as [|rcpt [|]]; try apply all_ret.
      cbn [existsb]. rewrite orb_false_r.
      destruct (config.MXRelay (config.Mail cfg)) eqn:Hmx; [|apply all_ret].
      destruct (strings.Contains rcpt ".onion") eqn:Hc; [apply all_ret|].
      destruct (shouldUseTor cfg rcpt) eqn:Hu; [apply all_ret|].
      cbn [andb negb].
      apply all_bind; [by apply all_log|intros _].
      apply all_bind.
      + eapply all_events_impl; [|apply mxLookup_queries].
        intros [] H; try done. destruct H as (-> & Hs & Hsuf).
        split; [done|]. exists rcpt. repeat split; try done.
        destruct (splitEmailAddress rcpt) as [[n dm] err]. cbn in *. by subst.
      + intros [mx [e|]]; all_events_by ltac:(exact I).
    - intros tor serverAddr _.
      eapply all_events_impl; [|apply smtpRelay_dial_run]. by intros [].
    - by intros []. }
  unfold all_events in Hall. rewrite Forall_forall in Hall.
  exact (Hall _ Hin).
Qed.

Lemma smtpRelay_mx_lookup_guard_witness :
  config.MXRelay (config.Mail sample.cfg) = true
  ∧ ∃ rcpt,
      ["bob@example.com"] = [rcpt]
      ∧ strings.Contains rcpt ".onion" = false
      ∧ shouldUseTor sample.cfg rcpt = false
      ∧ splitEmailAddress rcpt
        = ({| name := name (fst (splitEmailAddress rcpt));
              domain := "example.com" |}, None)
      ∧ strings.HasSuffix "example.com" ".onion" = false.
Proof.
  apply (smtpRelay_mx_lookup_guard sample.cfg sample.w1 "payload"
           ["bob@example.com"] "example.com").
  apply list_elem_of_In. vm_compute. right. left. reflexivity.
Defined.

Lemma relay_timeout_nonzero tor : relay_timeout tor ≠ 0%Z.
Proof.
  unfold relay_timeout. cbv zeta.
  destruct (Z.eqb_spec (wrap64 (config.Timeout tor * Second)) 0); [done|done].
Qed.

Lemma relay_timeout_seconds tor :
  (0 ≤ config.Timeout tor ≤ 9223372036)%Z →
  relay_timeout tor
  = ((if (config.Timeout tor =? 0)%Z then 30 else config.Timeout tor)
     * Second)%Z.
Proof.
  intros Hr. unfold relay_timeout, wrap64, Second. cbv zeta.
  rewrite Z.mod_small by lia.
  destruct (Z.eqb_spec (config.Timeout tor) 0) as [->|Hz]; [done|].
  destruct (Z.eqb_spec (config.Timeout tor * 1000000000 + 2 ^ 63 - 2 ^ 63) 0);
    lia.
Qed.

(** X18: every dial of [smtpRelay], direct or through Tor,
    has the timeout computed from [cfg.Tor.Timeout].  This timeout is
    never zero; for a configured value between 0 and 9223372036 seconds,
    where the multiplication does not wrap around, it is that many
    seconds, and 30 seconds for the value 0. *)
Theorem smtpRelay_dial_timeout (cfg : config.Config) (w : World)
    (payload : string) (sendTo : list string) (tor : config.TorConfig) :
  config.Tor cfg = Some tor →
  Forall (fun e => ∀ t, dial_timeout e = Some t → t = relay_timeout tor)
    (trace (smtpRelay cfg w payload sendTo))
  ∧ relay_timeout tor ≠ 0%Z
  ∧ ((0 ≤ config.Timeout tor ≤ 9223372036)%Z →
     relay_timeout tor
     = ((if (config.Timeout tor =? 0)%Z then 30 else config.Timeout tor)
        * Second)%Z).
Proof.
  intros Htor. split; [|split].
  - apply smtpRelay_all.
    + eapply all_events_impl; [|apply smtpRelay_endpoint_events]. by intros [].
    + intros tor' serverAddr Htor'.
      assert (tor' = tor) as -> by congruence.
      eapply all_events_impl; [|apply smtpRelay_dial_run].
      intros [] H t; try done; cbn; intros [= <-].
      * by destruct H as (_ & _ & _ & ->).
      * destruct H as (_ & tor' & Htor'' & _ & -> & _). congruence.
    + by intros [].
    + done.
    + done.
  - apply relay_timeout_nonzero.
  - apply relay_timeout_seconds.
Qed.

Lemma smtpRelay_dial_timeout_witness :
  Forall (fun e => ∀ t, dial_timeout e = Some t → t = relay_timeout sample.tor)
    (trace (smtpRelay sample.cfg sample.w1 "payload" ["bob@example.com"])).
Proof.
  exact (proj1 (smtpRelay_dial_timeout sample.cfg sample.w1 "payload"
                  ["bob@example.com"] sample.tor eq_refl)).
Defined.

Lemma resolver_prelude_event e : resolver_event e = true → prelude_event e = true.
Proof. by destruct e. Qed.

(** The run of [smtpRelay]: it ends before a client is created; or the
    creation of the client fails; or the session follows, and
    [client.Quit] after it. *)
Lemma smtpRelay_cases cfg w payload sendTo :
  ∃ pre,
    Forall (fun e => prelude_event e = true) pre
    ∧ ((∃ o, smtpRelay cfg w payload sendTo = Run pre o ∧ o ≠ Done None)
       ∨ (∃ conn relay serverAddr e,
            smtp_NewClient w conn relay = Err e
            ∧ smtpRelay cfg w payload sendTo
              = Run (pre ++ [SmtpNewClient conn relay;
                             Log LvWarn "SMTP connection error for %s: %v"
                               [serverAddr; e]])
                  (Done (Some e)))
       ∨ (∃ conn relay serverAddr client,
            smtp_NewClient w conn relay = Ok client
            ∧ smtpRelay cfg w payload sendTo
              = Run (pre ++ SmtpNewClient conn relay
                       :: trace (smtpRelay_session cfg client relay serverAddr
                                   (existsb (shouldUseTor cfg) sendTo)
                                   payload sendTo)
                       ++ [SmtpQuit])
                  (outcome (smtpRelay_session cfg client relay serverAddr
                              (existsb (shouldUseTor cfg) sendTo)
                              payload sendTo)))).
Proof.
  unfold smtpRelay. cbv zeta.
  set (useTor := existsb (shouldUseTor cfg) sendTo).
  destruct (smtpRelay_endpoint_returns cfg w sendTo useTor) as [[relay0 port] Hr].
  pose proof (smtpRelay_endpoint_events cfg w sendTo useTor) as He.
  eapply Forall_impl in He; [|apply resolver_prelude_event].
  destruct (smtpRelay_endpoint cfg w sendTo useTor) as [tep oep].
  cbn [trace outcome] in Hr, He. subst oep. rewrite bind_Done.
  destruct (config.Tor cfg) as [tor|].
  2:{ exists tep. split; [done|]. left. eexists.
      cbn. rewrite app_nil_r. by split. }
  change (deref (Some tor)) with (Run [] (Done tor) : M config.TorConfig).
  rewrite bind_Done. cbn [trace outcome app]. cbv beta zeta.
  change (if (wrap64 (config.Timeout tor * Second) =? 0)%Z
          then (30 * Second)%Z
          else wrap64 (config.Timeout tor * Second))
    with (relay_timeout tor).
  set (serverAddr := relay0 +:+ ":" +:+ pretty port).
  assert (Forall (fun e => prelude_event e = true)
            (trace (smtpRelay_dial cfg w useTor serverAddr (relay_timeout tor))))
    as Hd.
  { eapply (all_events_impl _ (fun e => prelude_event e = true));
      [|apply smtpRelay_dial_run]. by intros []. }
  destruct (smtpRelay_dial cfg w useTor serverAddr (relay_timeout tor))
    as [td [[conn0|e]|msg]]; cbn [trace] in Hd.
  - exists (tep ++ td). split; [by apply Forall_app|].
    rewrite bind_Done, bind_call.
    destruct (smtp_NewClient w conn0 relay0) as [client0|e] eqn:Hc.
    + right. right. exists conn0, relay0, serverAddr, client0.
      split; [done|]. unfold defer. cbn [trace outcome].
      f_equal. by rewrite <- !app_assoc.
    + right. left. exists conn0, relay0, serverAddr, e.
      split; [done|]. cbn [trace outcome]. f_equal. by rewrite <- !app_assoc.
  - exists (tep ++ td). split; [by apply Forall_app|].
    left. eexists. rewrite bind_Done. cbn [trace outcome mret M_mret].
    rewrite app_nil_r. by split.
  - exists (tep ++ td). split; [by apply Forall_app|].
    left. eexists. rewrite bind_Panic. cbn [trace outcome].
    by split.
Qed.

Lemma prelude_not_in (l : list Event) (x : Event) :
  Forall (fun e => prelude_event e = true) l → prelude_event x = false → x ∉ l.
Proof.
  intros Hl Hx Hin. rewrite Forall_forall in Hl. apply Hl in Hin. congruence.
Qed.

(** X19: a run of [smtpRelay] ends with [client.Quit] exactly when
    it created an SMTP client: after a failed dial, a panic or a failed
    [smtp.NewClient] there is no client to quit, and once the client
    exists every way out of the session goes through the deferred
    [client.Quit]. *)
Theorem smtpRelay_quit (cfg : config.Config) (w : World)
    (payload : string) (sendTo : list string) :
  (∃ conn relay client,
     SmtpNewClient conn relay ∈ trace (smtpRelay cfg w payload sendTo)
     ∧ smtp_NewClient w conn relay = Ok client)
  ↔ last (trace (smtpRelay cfg w payload sendTo)) = Some SmtpQuit.
Proof.
  destruct (smtpRelay_cases cfg w payload sendTo)
    as (pre & Hpre & [(o & -> & Ho)
                     |[(conn & relay & sa & e & Hc & ->)
                      |(conn & relay & sa & client & Hc & ->)]]);
    cbn [trace].
  - split.
    + intros (c & r & cl & Hin & _). by apply prelude_not_in in Hin.
    + intros (l & ->)%last_Some.
      apply Forall_app in Hpre as [_ Hq]. by inversion Hq.
  - split.
    + intros (c & r & cl & Hin & Hcl).
      apply elem_of_app in Hin as [Hin|Hin]; [by apply prelude_not_in in Hin|].
      apply elem_of_cons in Hin as [[= -> ->]|Hin]; [congruence|].
      by apply elem_of_cons in Hin as [[=]|Hin%elem_of_nil].
    + change [SmtpNewClient conn relay;
              Log LvWarn "SMTP connection error for %s: %v" [sa; e]]
        with ([SmtpNewClient conn relay]
              ++ [Log LvWarn "SMTP connection error for %s: %v" [sa; e]]).
      by rewrite app_assoc, last_snoc.
  - split.
    + intros _. rewrite app_comm_cons, app_assoc. apply last_snoc.
    + intros _. exists conn, relay, client. split; [|done].
      apply elem_of_app. right. by left.
Qed.

(** X20: a run of [smtpRelay] that returns no error is: events
    before the client exists (lines of the log, the MX query, the dial),
    the creation of the client, the commands of the envelope (STARTTLS
    test and upgrade, AUTH test and authentication, sender, every
    recipient in order), the DATA command, one write of the unchanged
    payload, the closing of the data, a line of the log and
    [client.Quit]; the server accepted the sender and every recipient. *)
Theorem smtpRelay_success (cfg : config.Config) (w : World)
    (payload : string) (sendTo : list string) :
  outcome (smtpRelay cfg w payload sendTo) = Done None →
  ∃ pre conn relay serverAddr client,
    Forall (fun e => prelude_event e = true) pre
    ∧ smtp_NewClient w conn relay = Ok client
    ∧ trace (smtpRelay cfg w payload sendTo)
      = pre ++ SmtpNewClient conn relay
          :: envelope_commands cfg client relay sendTo
          ++ [SmtpData; DataWrite payload; DataClose;
              Log LvTrace
                (if existsb (shouldUseTor cfg) sendTo
                 then "Email sent via Tor to %s"
                 else "Email sent directly to %s") [serverAddr];
              SmtpQuit]
    ∧ client_Mail client (sender cfg) = None
    ∧ Forall (fun a => client_Rcpt client a = None) sendTo.
Proof.
  destruct (smtpRelay_cases cfg w payload sendTo)
    as (pre & Hpre & [(o & -> & Ho)
                     |[(conn & relay & sa & e & Hc & ->)
                      |(conn & relay & sa & client & Hc & ->)]]);
    cbn [trace outcome]; try done.
  intros Ho. exists pre, conn, relay, sa, client.
  destruct (smtpRelay_session_cases cfg client relay sa
              (existsb (shouldUseTor cfg) sendTo) payload sendTo)
    as [(_ & e & He)|(rest & -> & _ & Hmail & Hrcpt
                      & [(_ & ->)|(e & He & _)])]; try congruence.
  repeat split; try done. by rewrite <- !app_assoc.
Qed.

Lemma smtpRelay_success_witness :
  ∃ pre conn relay serverAddr client,
    Forall (fun e => prelude_event e = true) pre
    ∧ smtp_NewClient sample.w1 conn relay = Ok client
    ∧ trace (smtpRelay sample.cfg sample.w1 "payload" ["bob@example.com"])
      = pre ++ SmtpNewClient conn relay
          :: envelope_commands sample.cfg client relay ["bob@example.com"]
          ++ [SmtpData; DataWrite "payload"; DataClose;
              Log LvTrace
                (if existsb (shouldUseTor sample.cfg) ["bob@example.com"]
                 then "Email sent via Tor to %s"
                 else "Email sent directly to %s") [serverAddr];
              SmtpQuit]
    ∧ client_Mail client (sender sample.cfg) = None
    ∧ Forall (fun a => client_Rcpt client a = None) ["bob@example.com"].
Proof.
  apply (smtpRelay_success sample.cfg sample.w1 "payload" ["bob@example.com"]).
  reflexivity.
Defined.

(** X21: [smtpRelay] writes message data only after the
    server accepted the sender and every recipient, each recipient having
    been sent, and what it writes is the unchanged payload. *)
Theorem smtpRelay_data_guard (cfg : config.Config) (w : World)
    (payload : string) (sendTo : list string) (p : string) :
  DataWrite p ∈ trace (smtpRelay cfg w payload sendTo) →
  p = payload
  ∧ ∃ conn relay client,
      SmtpNewClient conn relay ∈ trace (smtpRelay cfg w payload sendTo)
      ∧ smtp_NewClient w conn relay = Ok client
      ∧ client_Mail client (sender cfg) = None
      ∧ Forall (fun a => client_Rcpt client a = None
                         ∧ SmtpRcpt a ∈ trace (smtpRelay cfg w payload sendTo))
          sendTo.
Proof.
  destruct (smtpRelay_cases cfg w payload sendTo)
    as (pre & Hpre & [(o & -> & Ho)
                     |[(conn & relay & sa & e & Hc & ->)
                      |(conn & relay & sa & client & Hc & ->)]]);
    cbn [trace outcome]; intros Hin.
  - by apply prelude_not_in in Hin.
  - apply elem_of_app in Hin as [Hin|Hin]; [by apply prelude_not_in in Hin|].
    apply elem_of_cons in Hin as [[=]|Hin].
    by apply elem_of_cons in Hin as [[=]|Hin%elem_of_nil].
  - apply elem_of_app in Hin as [Hin|Hin]; [by apply prelude_not_in in Hin|].
    apply elem_of_cons in Hin as [[=]|Hin].
    apply elem_of_app in Hin as [Hin|Hin];
      [|by apply elem_of_cons in Hin as [[=]|Hin%elem_of_nil]].
    destruct (smtpRelay_session_cases cfg client relay sa
                (existsb (shouldUseTor cfg) sendTo) payload sendTo)
      as [(Hfree & _)|(rest & Ht & _ & Hmail & Hrcpt & Hrest)].
    { rewrite Forall_forall in Hfree. by apply Hfree in Hin. }
    rewrite Ht in Hin |- *.
    assert (p = payload) as ->.
    { apply elem_of_app in Hin as [Hin|Hin].
      - pose proof (envelope_no_data cfg client relay sendTo) as He.
        rewrite Forall_forall in He. by apply He in Hin.
      - apply elem_of_cons in Hin as [[=]|Hin].
        destruct Hrest as [(_ & ->)|(e & _ & Hr)].
        + apply elem_of_cons in Hin as [[= ->]|Hin]; [done|].
          apply elem_of_cons in Hin as [[=]|Hin].
          by apply elem_of_cons in Hin as [[=]|Hin%elem_of_nil].
        + rewrite Forall_forall in Hr.
          by destruct (Hr _ Hin) as [[= ->]|[[=]|[? [=]]]]. }
    split; [done|]. exists conn, relay, client.
    split; [apply elem_of_app; right; by left|].
    split; [done|]. split; [done|].
    apply Forall_forall. intros a Ha. rewrite Forall_forall in Hrcpt.
    split; [by apply Hrcpt|].
    apply elem_of_app. right. right. apply elem_of_app. left.
    apply elem_of_app. left. unfold envelope_commands.
    right. apply elem_of_app. right. right. apply elem_of_app. right. right.
    apply list_elem_of_fmap. by exists a.
Qed.

Lemma smtpRelay_data_guard_witness :
  "payload" = "payload"
  ∧ ∃ conn relay client,
      SmtpNewClient conn relay
      ∈ trace (smtpRelay sample.cfg sample.w1 "payload" ["bob@example.com"])
      ∧ smtp_NewClient sample.w1 conn relay = Ok client
      ∧ client_Mail client (sender sample.cfg) = None
      ∧ Forall (fun a =>
                  client_Rcpt client a = None
                  ∧ SmtpRcpt a
                    ∈ trace (smtpRelay sample.cfg sample.w1 "payload"
                               ["bob@example.com"]))
          ["bob@example.com"].
Proof.
  apply (smtpRelay_data_guard sample.cfg sample.w1 "payload"
           ["bob@example.com"] "payload").
  apply list_elem_of_In. vm_compute.
  repeat first [left; reflexivity | right].
Defined.

Lemma smtpRelay_rcpt_only client sendTo :
  all_events
    (fun e => match e with Log _ _ _ | SmtpRcpt _ => True | _ => False end)
    (smtpRelay_rcpt client sendTo).
Proof.
  induction sendTo as [|addr rest IH]; [apply all_ret|].
  cbn [smtpRelay_rcpt]. apply all_bind; [by apply all_call|].
  intros [e|]; [|done]. all_events_by ltac:(exact I).
Qed.

(** The authentication of a session: it is issued when the server offers
    AUTH and both credentials are set, with the credentials and the relay
    of the configuration, and after a TLS upgrade that did not fail. *)
Lemma smtpRelay_session_auth cfg client relay serverAddr useTor payload sendTo
    u p h :
  SmtpAuth u p h
  ∈ trace (smtpRelay_session cfg client relay serverAddr useTor payload sendTo) →
  auth_wanted cfg client = true
  ∧ u = config.Username (config.Mail cfg)
  ∧ p = config.Password (config.Mail cfg)
  ∧ h = config.SMTPRelay (config.Mail cfg)
  ∧ (client_Extension client "STARTTLS" && tls_allowed cfg relay = true →
     client_StartTLS client = None).
Proof.
  unfold smtpRelay_session. cbv zeta.
  pose proof (smtpRelay_rcpt_only client sendTo) as Hrcpt.
  destruct (smtpRelay_rcpt client sendTo) as [t o].
  unfold all_events in Hrcpt. cbn [trace] in Hrcpt.
  assert (∀ u p h, SmtpAuth u p h ∉ t) as Hnot.
  { intros ??? Hin. rewrite Forall_forall in Hrcpt. by apply Hrcpt in Hin. }
  cbv [mbind M_mbind M_bind call log mret M_mret trace outcome].
  replace (if strings.Contains relay ".onion"
              && config.DisableTLSOnion (config.Mail cfg)
           then false else config.UseTLS (config.Mail cfg))
    with (tls_allowed cfg relay)
    by (unfold tls_allowed;
        by destruct (strings.Contains relay ".onion"),
             (config.DisableTLSOnion (config.Mail cfg)),
             (config.UseTLS (config.Mail cfg))).
  fold (auth_wanted cfg client). fold (sender cfg).
  destruct (client_Extension client "STARTTLS" && tls_allowed cfg relay);
    try destruct (client_StartTLS client) as [e1|];
    try destruct (auth_wanted cfg client);
    try destruct (client_Auth client (config.Username (config.Mail cfg))
                    (config.Password (config.Mail cfg))
                    (config.SMTPRelay (config.Mail cfg))) as [e2|];
    try destruct (client_Mail client (sender cfg)) as [e3|];
    try destruct o as [[e0|]|msg];
    try destruct (client_Data client) as [wr|e4];
    try destruct (data_Write wr payload) as [e5|];
    try destruct (data_Close wr) as [e6|];
    try destruct useTor;
    cbn [app]; intros Hin;
    repeat match goal with
           | H : _ ∈ _ :: _ |- _ => apply elem_of_cons in H as [H|H]
           | H : _ ∈ _ ++ _ |- _ => apply elem_of_app in H as [H|H]
           | H : _ ∈ [] |- _ => by apply elem_of_nil in H
           | H : _ ∈ t |- _ => by apply Hnot in H
           | H : SmtpAuth _ _ _ = _ |- _ =>
               first [discriminate H | injection H as -> -> ->]
           end;
    done.
Qed.

(** X22: [smtpRelay] authenticates only with the user name
    and the password of the configuration, both not empty, towards a
    server that offers AUTH, and after a TLS upgrade that, when it was
    attempted, did not fail.  The host of the authentication is
    [cfg.Mail.SMTPRelay], also when the relay is the host of an MX
    record. *)
Theorem smtpRelay_auth_guard (cfg : config.Config) (w : World)
    (payload : string) (sendTo : list string) (u p h : string) :
  SmtpAuth u p h ∈ trace (smtpRelay cfg w payload sendTo) →
  u = config.Username (config.Mail cfg) ∧ u ≠ ""
  ∧ p = config.Password (config.Mail cfg) ∧ p ≠ ""
  ∧ h = config.SMTPRelay (config.Mail cfg)
  ∧ ∃ conn relay client,
      SmtpNewClient conn relay ∈ trace (smtpRelay cfg w payload sendTo)
      ∧ smtp_NewClient w conn relay = Ok client
      ∧ client_Extension client "AUTH" = true
      ∧ (client_Extension client "STARTTLS" && tls_allowed cfg relay = true →
         client_StartTLS client = None).
Proof.
  destruct (smtpRelay_cases cfg w payload sendTo)
    as (pre & Hpre & [(o & -> & Ho)
                     |[(conn & relay & sa & e & Hc & ->)
                      |(conn & relay & sa & client & Hc & ->)]]);
    cbn [trace outcome]; intros Hin.
  - by apply prelude_not_in in Hin.
  - apply elem_of_app in Hin as [Hin|Hin]; [by apply prelude_not_in in Hin|].
    apply elem_of_cons in Hin as [[=]|Hin].
    by apply elem_of_cons in Hin as [[=]|Hin%elem_of_nil].
  - apply elem_of_app in Hin as [Hin|Hin]; [by apply prelude_not_in in Hin|].
    apply elem_of_cons in Hin as [[=]|Hin].
    apply elem_of_app in Hin as [Hin|Hin];
      [|by apply elem_of_cons in Hin as [[=]|Hin%elem_of_nil]].
    apply smtpRelay_session_auth in Hin as (Hw & -> & -> & -> & Htls).
    unfold auth_wanted in Hw.
    apply andb_prop in Hw as [[Hext Hu]%andb_prop Hp].
    apply negb_true_iff in Hu, Hp.
    apply String.eqb_neq in Hu, Hp.
    repeat split; try done.
    exists conn, relay, client.
    split; [apply elem_of_app; right; by left|done].
Qed.

Lemma smtpRelay_auth_guard_witness :
  ∃ conn relay client,
    SmtpNewClient conn relay
    ∈ trace (smtpRelay sample.cfg_auth
               (sample.with_client sample.w1 sample.auth_client) "payload"
               ["bob@example.com"])
    ∧ smtp_NewClient (sample.with_client sample.w1 sample.auth_client)
        conn relay = Ok client
    ∧ client_Extension client "AUTH" = true
    ∧ (client_Extension client "STARTTLS"
       && tls_allowed sample.cfg_auth relay = true →
       client_StartTLS client = None).
Proof.
  apply (smtpRelay_auth_guard sample.cfg_auth
           (sample.with_client sample.w1 sample.auth_client) "payload"
           ["bob@example.com"] "mix" "secret" "relay.example.net").
  apply list_elem_of_In. vm_compute.
  repeat first [left; reflexivity | right].
Defined.

(** *** The Tor proxy *)

(** X23: with Tor enabled, [validateTorConfig] probes, by a
    direct TCP dial with a timeout of 5 seconds, the proxy address that
    every SOCKS dial of [smtpRelay] goes through: [SocksProxy], or
    [127.0.0.1:9050] when it is empty.  A connection that opens is closed
    and the result is no error; when the dial fails the result is an
    error and nothing else happens. *)
Theorem validateTorConfig_proxy (cfg : config.Config) (w : World)
    (tor : config.TorConfig) :
  config.Tor cfg = Some tor →
  config.Enabled tor = true →
  let dial := DialTimeout "tcp" (tor_proxy tor) (5 * Second) in
  match net_DialTimeout w "tcp" (tor_proxy tor) (5 * Second) with
  | Ok conn =>
      validateTorConfig cfg w
      = ([Delivery dial; ConnClose conn;
          Delivery (Log LvInfo "Tor proxy validated: %s" [tor_proxy tor])],
         None)
  | Err e =>
      fst (validateTorConfig cfg w) = [Delivery dial]
      ∧ ∃ msg, snd (validateTorConfig cfg w) = Some msg
  end
  ∧ ∀ payload sendTo,
      Forall (fun e =>
                match e with
                | SocksDial proxy _ network _ =>
                    proxy = tor_proxy tor ∧ network = "tcp"
                | _ => True
                end)
        (trace (smtpRelay cfg w payload sendTo)).
Proof.
  intros Htor Hen dial. split.
  - unfold validateTorConfig. rewrite Htor, Hen. cbn [negb]. cbv zeta.
    fold (tor_proxy tor).
    destruct (net_DialTimeout w "tcp" (tor_proxy tor) (5 * Second));
      [done|]. split; [done|by eexists].
  - intros payload sendTo. apply smtpRelay_all.
    + eapply all_events_impl; [|apply smtpRelay_endpoint_events]. by intros [].
    + intros tor' serverAddr _.
      eapply all_events_impl; [|apply smtpRelay_dial_run].
      intros [] H; try done.
      destruct H as (_ & tor'' & Htor'' & -> & _ & -> & _).
      split; [congruence|done].
    + by intros [].
    + done.
    + done.
Qed.

Lemma validateTorConfig_proxy_witness :
  validateTorConfig sample.cfg sample.w1
  = ([Delivery (DialTimeout "tcp" "127.0.0.1:9050" (5 * Second));
      ConnClose "127.0.0.1:9050";
      Delivery (Log LvInfo "Tor proxy validated: %s" ["127.0.0.1:9050"])],
     None).
Proof.
  exact (proj1 (validateTorConfig_proxy sample.cfg sample.w1 sample.tor
                  eq_refl eq_refl)).
Defined.

(** X24: when [dialThroughTor] returns a connection, its
    run is one SOCKS dial over TCP to the address given, through the
    proxy and with the timeout of the configuration, and one line of the
    log.  The [Enabled] flag is not read: the callers decide. *)
Theorem dialThroughTor_connected (cfg : config.Config) (w : World)
    (address : string) (conn : Conn) :
  outcome (dialThroughTor cfg w address) = Done (Ok conn) →
  ∃ tor,
    config.Tor cfg = Some tor
    ∧ trace (dialThroughTor cfg w address)
      = [SocksDial (tor_proxy tor) (relay_timeout tor) "tcp" address;
         Log LvTrace "Connected to %s via Tor" [address]].
Proof.
  unfold dialThroughTor. destruct (config.Tor cfg) as [tor|]; [|done].
  change (deref (Some tor)) with (Run [] (Done tor) : M config.TorConfig).
  rewrite bind_Done. cbn [trace outcome app]. cbv beta zeta.
  fold (tor_proxy tor).
  change (if (wrap64 (config.Timeout tor * Second) =? 0)%Z
          then (30 * Second)%Z
          else wrap64 (config.Timeout tor * Second))
    with (relay_timeout tor).
  destruct (url_Parse w _) as [proxyURL|e]; [|done].
  destruct (proxy_FromURL w proxyURL) as [dialer|e]; [|done].
  destruct (asContextDialer dialer) as [DialContext|]; [|done].
  rewrite bind_call.
  destruct (DialContext _ _ _) as [c|e]; [|done].
  cbn. intros _. by exists tor.
Qed.

Lemma dialThroughTor_connected_witness :
  ∃ tor,
    config.Tor sample.cfg = Some tor
    ∧ trace (dialThroughTor sample.cfg sample.w1 "relay.example.net:587")
      = [SocksDial (tor_proxy tor) (relay_timeout tor) "tcp"
           "relay.example.net:587";
         Log LvTrace "Connected to %s via Tor" ["relay.example.net:587"]].
Proof.
  apply (dialThroughTor_connected sample.cfg sample.w1 "relay.example.net:587"
           "relay.example.net:587").
  reflexivity.
Defined.

(** X25: with Tor enabled, [sendmailTor] never calls
    [smtp.SendMail]: it runs [smtpRelay], whose transport follows the
    recipients.  When none of them asks for Tor no SOCKS dial is made:
    the relay is dialled directly, if at all. *)
Theorem sendmailTor_enabled (cfg : config.Config) (w : World)
    (payload : string) (sendTo : list string) :
  tor_enabled cfg = true →
  all_events
    (fun e =>
       match e with
       | SmtpSendMail _ _ _ _ _ _ _ => False
       | _ => transport_event (existsb (shouldUseTor cfg) sendTo) e = true
       end)
    (sendmailTor cfg w payload sendTo).
Proof.
  intros Htor. unfold sendmailTor, tor_enabled in *.
  destruct (config.Tor cfg) as [tor|] eqn:Hcfg; [|done]. rewrite Htor.
  cbn [negb]. apply all_bind; [by apply all_log|intros _].
  apply smtpRelay_all.
  - destruct (existsb (shouldUseTor cfg) sendTo).
    + rewrite smtpRelay_endpoint_tor. apply all_ret.
    + eapply all_events_impl; [|apply smtpRelay_endpoint_events].
      by intros [].
  - intros tor' serverAddr _.
    eapply all_events_impl; [|apply smtpRelay_dial_run].
    intros [] H; try done; cbn in H; cbn; by destruct H as [-> _].
  - by intros [].
  - done.
  - done.
Qed.

Lemma sendmailTor_enabled_witness :
  all_events
    (fun e =>
       match e with
       | SmtpSendMail _ _ _ _ _ _ _ => False
       | _ =>
           transport_event
             (existsb (shouldUseTor sample.cfg) ["bob@example.com"]) e = true
       end)
    (sendmailTor sample.cfg sample.w1 "payload" ["bob@example.com"]).
Proof.
  apply (sendmailTor_enabled sample.cfg sample.w1 "payload"
           ["bob@example.com"]).
  reflexivity.
Defined.
